(** * A CRUD service over a single [User] resource: model and properties

    The development embeds [src/index.js]: an Express application whose
    handlers validate the request and call a Prisma client.

    Modelling choices, all visible in the definitions below:
    - strings are sequences of code units below 256 (the Latin-1 range), on
      which [toLowerCase], [trim] and the regular expression class [\s] are
      given in full;
    - a JavaScript Number is [NaN], an infinity or a finite rational; the
      conversion of an integer to a Number rounds to 53 significant bits;
    - a request is taken after routing: its method, the route pattern its
      path matches (with the captured segment) and its body as the JSON
      parser finds it;
    - the middleware stack is the list of layers in registration order and
      is dispatched as Express does, a pending error skipping every layer
      that is not an error handler;
    - requests are handled one at a time; the store is passed explicitly. *)

From Stdlib Require Import ZArith QArith Ascii String List Bool Lia.
From stdpp Require Import gmap strings list fin_maps sorting.

Local Open Scope string_scope.
Local Open Scope Z_scope.
#[local] Set Warnings "-register-all".

(* ===================================================================== *)
(** ** Strings *)
(* ===================================================================== *)

Module Str.

Definition code (c : ascii) : Z := Z.of_N (N_of_ascii c).

(** WhiteSpace and LineTerminator code units (TAB, LF, VT, FF, CR, SP,
    NBSP): the set removed by [String.prototype.trim], matched by [\s] and
    skipped by [parseInt]. *)
Definition isWhiteSpace (c : ascii) : bool :=
  let n := code c in
  ((9 <=? n) && (n <=? 13)) || (n =? 32) || (n =? 160).

(** [toLowerCase] on one code unit: A-Z, and the Latin-1 capitals
    U+00C0..U+00DE except the multiplication sign U+00D7. *)
Definition lowerChar (c : ascii) : ascii :=
  let n := code c in
  if ((65 <=? n) && (n <=? 90))
     || ((192 <=? n) && (n <=? 222) && negb (n =? 215))
  then ascii_of_N (Z.to_N (n + 32))
  else c.

Fixpoint toLowerCase (s : string) : string :=
  match s with
  | EmptyString => EmptyString
  | String c s' => String (lowerChar c) (toLowerCase s')
  end.

Fixpoint trimStart (s : string) : string :=
  match s with
  | EmptyString => EmptyString
  | String c s' => if isWhiteSpace c then trimStart s' else s
  end.

Fixpoint trimEnd (s : string) : string :=
  match s with
  | EmptyString => EmptyString
  | String c s' =>
      match trimEnd s' with
      | EmptyString => if isWhiteSpace c then EmptyString else String c EmptyString
      | t => String c t
      end
  end.

Definition trim (s : string) : string := trimEnd (trimStart s).

Fixpoint drop (n : nat) (s : string) : string :=
  match n, s with
  | S n', String _ s' => drop n' s'
  | _, _ => s
  end.

(** [s] begins with [p]. *)
Fixpoint startsWith (p s : string) : bool :=
  match p, s with
  | EmptyString, _ => true
  | String a p', String b s' => Ascii.eqb a b && startsWith p' s'
  | String _ _, EmptyString => false
  end.

Fixpoint all (p : ascii -> bool) (s : string) : bool :=
  match s with
  | EmptyString => true
  | String c s' => p c && all p s'
  end.

End Str.

(* ===================================================================== *)
(** ** Regular expressions *)
(* ===================================================================== *)

Module Regex.

(** The fragment of the regular expression syntax the program uses:
    character classes, concatenation and [+]; a pattern written between
    [^] and [$] has to match the whole string. *)
Inductive regex : Type :=
| Void
| Eps
| Class (p : ascii -> bool)
| Cat (r1 r2 : regex)
| Alt (r1 r2 : regex)
| Star (r : regex).

Definition Plus (r : regex) : regex := Cat r (Star r).
Definition Chr (c : ascii) : regex := Class (Ascii.eqb c).

Fixpoint nullable (r : regex) : bool :=
  match r with
  | Void => false
  | Eps => true
  | Class _ => false
  | Cat r1 r2 => nullable r1 && nullable r2
  | Alt r1 r2 => nullable r1 || nullable r2
  | Star _ => true
  end.

Fixpoint deriv (c : ascii) (r : regex) : regex :=
  match r with
  | Void => Void
  | Eps => Void
  | Class p => if p c then Eps else Void
  | Cat r1 r2 =>
      Alt (Cat (deriv c r1) r2) (if nullable r1 then deriv c r2 else Void)
  | Alt r1 r2 => Alt (deriv c r1) (deriv c r2)
  | Star r1 => Cat (deriv c r1) (Star r1)
  end.

(** Whole-string match. *)
Fixpoint matches (r : regex) (s : string) : bool :=
  match s with
  | EmptyString => nullable r
  | String c s' => matches (deriv c r) s'
  end.

(** A regular expression with no match at all, recognised syntactically. *)
Fixpoint dead (r : regex) : bool :=
  match r with
  | Void => true
  | Eps => false
  | Class _ => false
  | Cat r1 r2 => dead r1 || dead r2
  | Alt r1 r2 => dead r1 && dead r2
  | Star _ => false
  end.

(** [alphabet r c]: some character class of [r] accepts [c]. *)
Fixpoint alphabet (r : regex) (c : ascii) : bool :=
  match r with
  | Void => false
  | Eps => false
  | Class p => p c
  | Cat r1 r2 => alphabet r1 c || alphabet r2 c
  | Alt r1 r2 => alphabet r1 c || alphabet r2 c
  | Star r1 => alphabet r1 c
  end.

End Regex.

(* ===================================================================== *)
(** ** Numbers *)
(* ===================================================================== *)

Module Num.

Inductive number : Type :=
| NaN
| Infinity (negative : bool)
| Finite (q : Q).

Definition ofZ (z : Z) : number := Finite (inject_Z z).

Definition isNaN (n : number) : bool :=
  match n with NaN => true | _ => false end.

(** [n < k] for an integer literal [k]; false on [NaN]. *)
Definition ltZ (n : number) (k : Z) : bool :=
  match n with
  | NaN => false
  | Infinity negative => negative
  | Finite q => Qnum q <? k * Zpos (Qden q)
  end.

(** [Number.isInteger]. *)
Definition isInteger (n : number) : bool :=
  match n with
  | Finite q => Qnum q mod Zpos (Qden q) =? 0
  | _ => false
  end.

(** Truthiness of a Number: false on zero and [NaN]. *)
Definition nonzero (n : number) : bool :=
  match n with
  | NaN => false
  | Infinity _ => true
  | Finite q => negb (Qnum q =? 0)
  end.

(** The integer a finite integral Number stands for. *)
Definition toZ (n : number) : Z :=
  match n with
  | Finite q => Qnum q / Zpos (Qden q)
  | _ => 0
  end.

(** Round a non-negative integer to 53 significant bits, to nearest, ties
    to even. *)
Definition round53 (m : Z) : Z :=
  let e := Z.log2 m - 52 in
  if e <=? 0 then m
  else
    let q := Z.shiftr m e in
    let r := Z.land m (Z.ones e) in
    let half := Z.shiftl 1 (e - 1) in
    let q' := if (half <? r) || ((r =? half) && Z.odd q) then q + 1 else q in
    Z.shiftl q' e.

(** The Number value of a mathematical integer. *)
Definition toNumber (z : Z) : number :=
  let m := round53 (Z.abs z) in
  if 2 ^ 1024 <=? m then Infinity (z <? 0) else ofZ (Z.sgn z * m).

(** Value of a code unit as a digit: 0-9, then letters of either case. *)
Definition digitValue (c : ascii) : option Z :=
  let n := Str.code c in
  if (48 <=? n) && (n <=? 57) then Some (n - 48)
  else if (97 <=? n) && (n <=? 122) then Some (n - 87)
  else if (65 <=? n) && (n <=? 90) then Some (n - 55)
  else None.

Definition radixDigit (R : Z) (c : ascii) : option Z :=
  match digitValue c with
  | Some d => if d <? R then Some d else None
  | None => None
  end.

(** Value of the longest prefix of radix-[R] digits, continuing [acc]. *)
Fixpoint mathInt (R : Z) (acc : Z) (s : string) : Z :=
  match s with
  | EmptyString => acc
  | String c s' =>
      match radixDigit R c with
      | Some d => mathInt R (acc * R + d) s'
      | None => acc
      end
  end.

Definition startsWithDigit (R : Z) (s : string) : bool :=
  match s with
  | EmptyString => false
  | String c _ => match radixDigit R c with Some _ => true | None => false end
  end.

(** [parseInt(string)] with no radix argument, before the conversion to a
    Number: leading white space is skipped, a sign is read, a [0x] or [0X]
    prefix selects radix 16, and the longest digit prefix is evaluated;
    [None] when that prefix is empty. *)
Definition parseIntMath (input : string) : option Z :=
  let s0 := Str.trimStart input in
  let sign := if Str.startsWith "-" s0 then -1 else 1 in
  let s1 := if Str.startsWith "+" s0 || Str.startsWith "-" s0
            then Str.drop 1 s0 else s0 in
  let '(R, s2) := if Str.startsWith "0x" s1 || Str.startsWith "0X" s1
                  then (16, Str.drop 2 s1) else (10, s1) in
  if startsWithDigit R s2 then Some (sign * mathInt R 0 s2) else None.

(** The Number that [parseInt] returns. For a decimal text of more than
    20 significant digits ECMAScript lets an implementation approximate
    the integer before rounding; the exact value is taken here. *)
Definition parseInt (input : string) : number :=
  match parseIntMath input with
  | Some z => toNumber z
  | None => NaN
  end.

End Num.

(* ===================================================================== *)
(** ** JavaScript values *)
(* ===================================================================== *)

Module Js.

Inductive json : Type :=
| JNull
| JBool (b : bool)
| JNum (n : Num.number)
| JStr (s : string)
| JArr (l : list json)
| JObj (o : list (string * json)).

(** A value read from a property: [None] is [undefined]. *)
Definition value : Type := option json.

Inductive type : Type := TUndefined | TObject | TBoolean | TNumber | TString.

Definition typeof (v : value) : type :=
  match v with
  | None => TUndefined
  | Some (JBool _) => TBoolean
  | Some (JNum _) => TNumber
  | Some (JStr _) => TString
  | Some _ => TObject
  end.

Definition isString (v : value) : bool :=
  match typeof v with TString => true | _ => false end.

Definition isNumber (v : value) : bool :=
  match typeof v with TNumber => true | _ => false end.

Definition isUndefined (v : value) : bool :=
  match v with None => true | Some _ => false end.

(** ToBoolean. *)
Definition truthy (v : value) : bool :=
  match v with
  | None => false
  | Some JNull => false
  | Some (JBool b) => b
  | Some (JNum n) => Num.nonzero n
  | Some (JStr s) => negb (String.eqb s "")
  | Some _ => true
  end.

(** The string and the number inside a value; the handlers read them
    only behind a [typeof] test. *)
Definition str (v : value) : string :=
  match v with Some (JStr s) => s | _ => "" end.

Definition num (v : value) : Num.number :=
  match v with Some (JNum n) => n | _ => Num.NaN end.

(** Own properties of an object, the first binding of a key being its
    value. The keys this program reads are [name], [email] and [age],
    which no array and no primitive has. *)
Fixpoint assoc (k : string) (o : list (string * json)) : value :=
  match o with
  | [] => None
  | (k', v) :: o' => if String.eqb k k' then Some v else assoc k o'
  end.

Fixpoint assoc_set (k : string) (v : json) (o : list (string * json))
  : list (string * json) :=
  match o with
  | [] => [(k, v)]
  | (k', v') :: o' =>
      if String.eqb k k' then (k, v) :: o' else (k', v') :: assoc_set k v o'
  end.

Definition get (b : json) (k : string) : value :=
  match b with JObj o => assoc k o | _ => None end.

Definition set (b : json) (k : string) (v : json) : json :=
  match b with JObj o => JObj (assoc_set k v o) | _ => b end.

(** Errors, with the properties that the handlers inspect. *)
Inductive errorClass : Type :=
| SyntaxError
| TypeError
| PrismaClientKnownRequestError
| PrismaClientValidationError.

Record error : Type := mkError {
  e_class : errorClass;
  e_status : option Z;
  e_body : bool;            (* 'body' in err *)
  e_code : option string;
  e_message : string
}.

Definition typeError (msg : string) : error :=
  mkError TypeError None false None msg.

Definition hasCode (e : error) (c : string) : bool :=
  match e_code e with Some c' => String.eqb c' c | None => false end.

End Js.

Import Js.

(* ===================================================================== *)
(** ** The user store behind the Prisma client *)
(* ===================================================================== *)

Module Prisma.

(** Modelled from the spec: the schema of the [user] model, which the
    repository keeps outside [src/]. A user has an [id] assigned by the
    store, a [name], a unique [email] and an optional integer [age]. *)
Record UserData : Type := mkData {
  name : string;
  email : string;
  age : option Z
}.

Definition User : Type := (Z * UserData)%type.

Inductive query : Type :=
| QFindMany
| QFindUnique (id : Z)
| QCreate (d : UserData)
| QUpdate (id : Z)
| QDelete (id : Z).

(** The table keyed by [id], the next value of the [id] sequence, and the
    queries sent to the database so far, latest first. *)
Record store : Type := mkStore {
  rows : gmap Z UserData;
  next_id : Z;
  sent : list query
}.

Definition send (q : query) (db : store) : store :=
  mkStore (rows db) (next_id db) (q :: sent db).

Definition with_rows (m : gmap Z UserData) (db : store) : store :=
  mkStore m (next_id db) (sent db).

(** The text of the client's own error messages is not modelled; these
    strings stand for it. Only [e_code] is read by the handlers. *)
Definition knownError (code : string) : error :=
  mkError PrismaClientKnownRequestError None false (Some code)
          ("Prisma request error " ++ code).

Definition validationError : error :=
  mkError PrismaClientValidationError None false None
          "Prisma validation error".

(** The range of an integer column: a 64-bit signed integer. *)
Definition fits64 (z : Z) : bool := (- 2 ^ 63 <=? z) && (z <? 2 ^ 63).

(** Arguments as the client checks them before any query is sent. The
    client also refuses an id outside the range of the id column, an id
    that no row of the table can have; that refusal is left out here.
    Where a statement below depends on what becomes of an id that no row
    has, it is made for an id inside the range, or for the id of a row
    just removed. *)
Definition idArg (v : value) : option Z :=
  match v with
  | Some (JNum n) => if Num.isInteger n then Some (Num.toZ n) else None
  | _ => None
  end.

Definition stringArg (v : value) : option string :=
  match v with Some (JStr s) => Some s | _ => None end.

(** A nullable integer column: [Some None] writes NULL. An integer that
    does not fit the column is refused like a value of another type. *)
Definition intArg (v : value) : option (option Z) :=
  match v with
  | Some JNull => Some None
  | Some (JNum n) =>
      if Num.isInteger n && fits64 (Num.toZ n) then Some (Some (Num.toZ n))
      else None
  | _ => None
  end.

(** The fields of a [data] argument; an [undefined] field is left out of
    the write. *)
Record fields : Type := mkFields {
  f_name : value;
  f_email : value;
  f_age : value
}.

(** Some other row than [self] holds [e]. *)
Definition emailTaken (e : string) (self : option Z) (m : gmap Z UserData) : bool :=
  existsb (fun r : User => String.eqb (email r.2) e
                           && negb (bool_decide (Some r.1 = self)))
          (map_to_list m).

Definition byId (a b : User) : Prop := a.1 <= b.1.

#[global] Instance byId_dec : RelDecision byId.
Proof. intros a b. unfold byId. apply _. Defined.

Inductive sortOrder : Type := asc | desc.

(** [findMany({ orderBy: { id } })]; without [orderBy] the rows come in
    the order the table happens to keep them. *)
Definition findMany (orderBy : option sortOrder) (db : store)
  : store * (error + list User) :=
  let all := map_to_list (rows db) in
  (send QFindMany db,
   inr match orderBy with
       | None => all
       | Some asc => merge_sort byId all
       | Some desc => reverse (merge_sort byId all)
       end).

(** [findUniqueOrThrow({ where: { id } })]. *)
Definition findUniqueOrThrow (id : value) (db : store)
  : store * (error + User) :=
  match idArg id with
  | None => (db, inl validationError)
  | Some i =>
      let db' := send (QFindUnique i) db in
      match rows db !! i with
      | Some d => (db', inr (i, d))
      | None => (db', inl (knownError "P2025"))
      end
  end.

(** One field of a [data] argument: [None] when the client refuses the
    value, [Some None] when the field is [undefined] and the column is
    left out of the write. *)
Definition column {A} (arg : value -> option A) (v : value) : option (option A) :=
  if isUndefined v then Some None else Some <$> arg v.

(** [create({ data })]: [name] and [email] are required, an [undefined]
    or [null] age is stored as NULL; the unique constraint on [email]
    raises P2002. *)
Definition create (data : fields) (db : store) : store * (error + User) :=
  match stringArg (f_name data), stringArg (f_email data),
        column intArg (f_age data) with
  | Some n, Some e, Some a =>
      let d := mkData n e (default None a) in
      let db' := send (QCreate d) db in
      if emailTaken e None (rows db) then (db', inl (knownError "P2002"))
      else
        let i := next_id db in
        (mkStore (<[i := d]> (rows db)) (i + 1) (sent db'), inr (i, d))
  | _, _, _ => (db, inl validationError)
  end.

(** [update({ where: { id }, data })]: P2025 when no row has the id, P2002
    when a written [email] is held by another row; a column whose field is
    [undefined] keeps its content. *)
Definition update (id : value) (data : fields) (db : store)
  : store * (error + User) :=
  match idArg id, column stringArg (f_name data),
        column stringArg (f_email data), column intArg (f_age data) with
  | Some i, Some n, Some e, Some a =>
      let db' := send (QUpdate i) db in
      match rows db !! i with
      | None => (db', inl (knownError "P2025"))
      | Some old =>
          if match e with
             | Some e' => emailTaken e' (Some i) (rows db)
             | None => false
             end
          then (db', inl (knownError "P2002"))
          else
            let d := mkData (default (name old) n) (default (email old) e)
                            (default (age old) a) in
            (with_rows (<[i := d]> (rows db)) db', inr (i, d))
      end
  | _, _, _, _ => (db, inl validationError)
  end.

(** [delete({ where: { id } })]. *)
Definition delete (id : value) (db : store) : store * (error + User) :=
  match idArg id with
  | None => (db, inl validationError)
  | Some i =>
      let db' := send (QDelete i) db in
      match rows db !! i with
      | Some d => (with_rows (base.delete i (rows db)) db', inr (i, d))
      | None => (db', inl (knownError "P2025"))
      end
  end.

End Prisma.

(* ===================================================================== *)
(** ** Express: requests, responses and the middleware stack *)
(* ===================================================================== *)

Module Express.

Import Prisma.

Inductive method : Type := GET | HEAD | POST | PUT | PATCH | DELETE | OPTIONS.

(** The route pattern a request path matches, with the segment captured
    by [:id]. *)
Inductive target : Type :=
| Users                       (* /users *)
| UsersId (segment : string)  (* /users/:id *)
| Elsewhere.

(** The request body as [express.json()] finds it: nothing to parse, a
    text the parser refuses (with the parser's message; in strict mode
    this includes a top-level primitive), or a JSON object or array. *)
Inductive rawBody : Type :=
| NoJson
| Refused (message : string)
| Object (o : list (string * json))
| Array (l : list json).

Record request : Type := mkRequest {
  r_method : method;
  r_target : target;
  r_raw : rawBody
}.

(** [req.params.id]: absent, the captured segment, or the number that
    [validateId] stores over it. *)
Inductive param : Type :=
| NoParam
| Segment (s : string)
| Parsed (n : Num.number).

(** The request object as the layers see and mutate it. *)
Record req : Type := mkReq {
  incoming : request;
  params_id : param;
  body : option json           (* [None] until a parser sets it *)
}.

Definition set_params_id (q : req) (p : param) : req :=
  mkReq (incoming q) p (body q).

Definition set_body (q : req) (b : json) : req :=
  mkReq (incoming q) (params_id q) (Some b).

(** The response as the handler makes it: the status it sets and the
    value it passes to [res.json]. What Express then does by the request
    alone is not modelled: it withholds the body from the answer to a HEAD
    request, and it answers a conditional GET or HEAD whose validator
    matches with 304. *)
Record response : Type := mkResponse {
  status : Z;
  payload : option json        (* [None] for a response without a JSON body *)
}.

(** [res.status(code).json(v)] and [res.json(v)]. *)
Definition json (code : Z) (v : Js.json) : response := mkResponse code (Some v).

Definition errorBody (msg : string) : Js.json := JObj [("error", JStr msg)].

(** What a layer does with a request: it ends the response, calls
    [next()], or calls [next(err)] (a handler that throws does the same). *)
Inductive outcome : Type :=
| Respond (r : response) (db : store)
| Next (q : req) (db : store)
| NextError (e : error) (q : req) (db : store).

Definition middleware : Type := req -> store -> outcome.
Definition errorMiddleware : Type := error -> req -> store -> outcome.

Inductive pattern : Type := PUsers | PUsersId.

Inductive layer : Type :=
| Use (f : middleware)
| UseError (f : errorMiddleware)
| Route (m : method) (p : pattern) (handlers : list middleware).

(** A route registered for GET also serves HEAD. *)
Definition methodMatches (route : method) (m : method) : bool :=
  match route, m with
  | GET, GET | GET, HEAD | POST, POST | PUT, PUT
  | PATCH, PATCH | DELETE, DELETE | HEAD, HEAD | OPTIONS, OPTIONS => true
  | _, _ => false
  end.

(** The parameters of a request for a pattern, when its path matches. *)
Definition pathMatches (p : pattern) (t : target) : option param :=
  match p, t with
  | PUsers, Users => Some NoParam
  | PUsersId, UsersId s => Some (Segment s)
  | _, _ => None
  end.

(** The handlers of a route in order, each running when the one before
    called [next()]. *)
Fixpoint runRoute (handlers : list middleware) (q : req) (db : store) : outcome :=
  match handlers with
  | [] => Next q db
  | h :: handlers' =>
      match h q db with
      | Next q' db' => runRoute handlers' q' db'
      | o => o
      end
  end.

(** The response when the stack is exhausted. *)
Definition finalhandler (err : option error) : response :=
  match err with
  | None => mkResponse 404 None
  | Some e => mkResponse (default 500 (e_status e)) None
  end.

(** What a layer does when the router reaches it: [None] when it is
    passed over. With an error pending only error handlers run, without
    one only the others, a route only if path and method match. *)
Definition enter (l : layer) (err : option error) (q : req) (db : store)
  : option outcome :=
  match l, err with
  | Use f, None => Some (f q db)
  | UseError f, Some e => Some (f e q db)
  | Route m p handlers, None =>
      match pathMatches p (r_target (incoming q)) with
      | Some prm =>
          if methodMatches m (r_method (incoming q))
          then Some (runRoute handlers (set_params_id q prm) db)
          else None
      | None => None
      end
  | _, _ => None
  end.

(** The router: layers are tried in registration order, always from the
    current position on. *)
Fixpoint dispatch (stack : list layer) (err : option error) (q : req) (db : store)
  : store * response :=
  match stack with
  | [] => (db, finalhandler err)
  | l :: rest =>
      match enter l err q db with
      | None => dispatch rest err q db
      | Some (Respond r db') => (db', r)
      | Some (Next q' db') => dispatch rest None q' db'
      | Some (NextError e q' db') => dispatch rest (Some e) q' db'
      end
  end.

(** The router going on with the layers [rest] after an outcome. *)
Definition resume (rest : list layer) (o : outcome) : store * response :=
  match o with
  | Respond r db => (db, r)
  | Next q db => dispatch rest None q db
  | NextError e q db => dispatch rest (Some e) q db
  end.

(** [cors()] with its default options: a preflight request is answered
    with 204, any other request goes on. Headers are not modelled. *)
Definition cors : middleware := fun q db =>
  match r_method (incoming q) with
  | OPTIONS => Respond (mkResponse 204 None) db
  | _ => Next q db
  end.

(** [express.json()] with its default options, as in Express 4: a request
    with no JSON body gets the empty object as its body. *)
Definition express_json : middleware := fun q db =>
  match r_raw (incoming q) with
  | NoJson => Next (set_body q (default (JObj []) (body q))) db
  | Refused msg => NextError (mkError SyntaxError (Some 400) true None msg) q db
  | Object o => Next (set_body q (JObj o)) db
  | Array l => Next (set_body q (JArr l)) db
  end.

End Express.

(* ===================================================================== *)
(** ** The application: [src/index.js] *)
(* ===================================================================== *)

Module App.

Import Prisma Express.

(** Request logging middleware (lines 13-16); the console is not
    modelled. *)
Definition requestLogger : middleware := fun q db => Next q db.

(** JSON parsing middleware with error handling (lines 19-24). *)
Definition jsonErrorHandler : errorMiddleware := fun err q db =>
  if match e_class err with SyntaxError => true | _ => false end
     && bool_decide (e_status err = Some 400) && e_body err
  then Respond (json 400 (errorBody "Invalid JSON")) db
  else NextError err q db.

(** [parseInt(req.params.id)]. A parameter that already holds a number is
    never presented again: [validateId] runs once per request. *)
Definition parseParam (p : param) : Num.number :=
  match p with
  | NoParam => Num.parseInt "undefined"
  | Segment s => Num.parseInt s
  | Parsed n => n
  end.

(** Validate ID parameter middleware (lines 29-36). *)
Definition validateId : middleware := fun q db =>
  let id := parseParam (params_id q) in
  if Num.isNaN id || Num.ltZ id 1
  then Respond (json 400 (errorBody "Invalid ID parameter")) db
  else Next (set_params_id q (Parsed id)) db.

(** Error handler middleware (lines 39-45). *)
Definition errorHandler : errorMiddleware := fun err q db =>
  Respond (json 500 (JObj [("error", JStr "Something went wrong!");
                           ("message", JStr (e_message err))])) db.

(** The class [[^\s@]]. *)
Definition notSpaceAt (c : ascii) : bool :=
  negb (Str.isWhiteSpace c || Ascii.eqb c "@").

(** [/^[^\s@]+@[^\s@]+\.[^\s@]+$/] (line 55). *)
Definition emailPattern : Regex.regex :=
  Regex.Cat (Regex.Plus (Regex.Class notSpaceAt))
    (Regex.Cat (Regex.Chr "@")
       (Regex.Cat (Regex.Plus (Regex.Class notSpaceAt))
          (Regex.Cat (Regex.Chr ".")
             (Regex.Plus (Regex.Class notSpaceAt))))).

(** The same pattern, written a second time at line 148. *)
Definition patchEmailPattern : Regex.regex :=
  Regex.Cat (Regex.Plus (Regex.Class notSpaceAt))
    (Regex.Cat (Regex.Chr "@")
       (Regex.Cat (Regex.Plus (Regex.Class notSpaceAt))
          (Regex.Cat (Regex.Chr ".")
             (Regex.Plus (Regex.Class notSpaceAt))))).

(** [!v.match(re)]: only a string has the method, on any other value the
    call raises a TypeError; [match] returns [null] when nothing matches. *)
Definition noMatch (what : string) (v : value) (re : Regex.regex) : error + bool :=
  if isString v then inr (negb (Regex.matches re (str v)))
  else inl (typeError (what ++ ".match is not a function")).

(** [a || b] where evaluating [b] may raise. *)
Definition orElse (a : bool) (b : error + bool) : error + bool :=
  if a then inr true else b.

(** [const { name, email, age } = req.body]. *)
Definition fieldsOf (b : Js.json) : fields :=
  mkFields (get b "name") (get b "email") (get b "age").

Definition destructureError : error :=
  typeError "Cannot destructure property 'name' of 'req.body' as it is undefined.".

Definition destructure (b : option Js.json) : error + fields :=
  match b with
  | Some o => inr (fieldsOf o)
  | None => inl destructureError
  end.

(** [req.params.id] as the handlers pass it on. *)
Definition paramValue (p : param) : value :=
  match p with
  | NoParam => None
  | Segment s => Some (JStr s)
  | Parsed n => Some (JNum n)
  end.

Definition invalidName (name : value) : bool :=
  negb (isString name) || (String.length (Str.trim (str name)) =? 0)%nat.

Definition invalidAge (age : value) : bool :=
  negb (isNumber age) || Num.ltZ (num age) 0 || negb (Num.isInteger (num age)).

(** Input validation middleware (lines 48-68). *)
Definition validateUserInput : middleware := fun q db =>
  match body q with
  | None => NextError destructureError q db
  | Some b =>
      let '(mkFields name email age) := fieldsOf b in
      if negb (truthy name) || invalidName name
      then Respond (json 400 (errorBody "Valid name is required")) db
      else
        match orElse (negb (truthy email)) (noMatch "email" email emailPattern) with
        | inl err => NextError err q db
        | inr true => Respond (json 400 (errorBody "Valid email is required")) db
        | inr false =>
            if negb (isUndefined age) && invalidAge age
            then Respond (json 400 (errorBody "Age must be a positive integer")) db
            else
              (* Sanitize input *)
              let b := set b "name" (JStr (Str.trim (str name))) in
              let b := set b "email" (JStr (Str.trim (Str.toLowerCase (str email)))) in
              Next (set_body q b) db
        end
  end.

Definition userJson (u : User) : Js.json :=
  JObj [("id", JNum (Num.ofZ u.1));
        ("name", JStr (name u.2));
        ("email", JStr (email u.2));
        ("age", match age u.2 with Some a => JNum (Num.ofZ a) | None => JNull end)].

Definition notFound : response := json 404 (errorBody "User not found").
Definition emailExists : response := json 409 (errorBody "Email already exists").

(** Get all users (lines 72-81). *)
Definition listUsers : middleware := fun q db =>
  match findMany (Some asc) db with
  | (db', inr users) => Respond (json 200 (JArr (map userJson users))) db'
  | (db', inl err) => NextError err q db'
  end.

(** Get a single user (lines 84-96). *)
Definition getUser : middleware := fun q db =>
  match findUniqueOrThrow (paramValue (params_id q)) db with
  | (db', inr user) => Respond (json 200 (userJson user)) db'
  | (db', inl err) =>
      if hasCode err "P2025" then Respond notFound db'
      else NextError err q db'
  end.

(** Create a new user (lines 99-112). *)
Definition createUser : middleware := fun q db =>
  match destructure (body q) with
  | inl err => NextError err q db
  | inr data =>
      match create data db with
      | (db', inr user) => Respond (json 201 (userJson user)) db'
      | (db', inl err) =>
          if hasCode err "P2002" then Respond emailExists db'
          else NextError err q db'
      end
  end.

(** Update a user, full (lines 115-132). *)
Definition replaceUser : middleware := fun q db =>
  match destructure (body q) with
  | inl err => NextError err q db
  | inr data =>
      match update (paramValue (params_id q)) data db with
      | (db', inr user) => Respond (json 200 (userJson user)) db'
      | (db', inl err) =>
          if hasCode err "P2025" then Respond notFound db'
          else if hasCode err "P2002" then Respond emailExists db'
          else NextError err q db'
      end
  end.

(** What the field checks of the partial update end with: a response, a
    raised error, or the [updateData] object. *)
Inductive checked : Type :=
| Rejected (r : response)
| Raised (e : error)
| Accepted (updateData : fields).

(** The field checks of the partial update (lines 137-159). *)
Definition patchFields (b : option Js.json) : checked :=
  match destructure b with
  | inl err => Raised err
  | inr (mkFields name email age) =>
      if negb (isUndefined name) && invalidName name
      then Rejected (json 400 (errorBody "Valid name is required"))
      else
        let uname := if isUndefined name then None
                     else Some (JStr (Str.trim (str name))) in
        match (if isUndefined email then inr false
               else orElse (negb (truthy email))
                           (noMatch "email" email patchEmailPattern)) with
        | inl err => Raised err
        | inr true => Rejected (json 400 (errorBody "Valid email is required"))
        | inr false =>
            let uemail := if isUndefined email then None
                          else Some (JStr (Str.trim (Str.toLowerCase (str email)))) in
            if negb (isUndefined age) && invalidAge age
            then Rejected (json 400 (errorBody "Age must be a positive integer"))
            else Accepted (mkFields uname uemail age)
        end
  end.

(** [Object.keys(updateData).length]. *)
Definition keyCount (d : fields) : nat :=
  length (filter (fun v => negb (isUndefined v)) [f_name d; f_email d; f_age d]).

(** Update a user, partial (lines 135-179). *)
Definition patchUser : middleware := fun q db =>
  match patchFields (body q) with
  | Rejected r => Respond r db
  | Raised err => NextError err q db
  | Accepted updateData =>
      if (keyCount updateData =? 0)%nat
      then Respond (json 400 (errorBody "No valid update data provided")) db
      else
        match update (paramValue (params_id q)) updateData db with
        | (db', inr user) => Respond (json 200 (userJson user)) db'
        | (db', inl err) =>
            if hasCode err "P2025" then Respond notFound db'
            else if hasCode err "P2002" then Respond emailExists db'
            else NextError err q db'
        end
  end.

(** Delete a user (lines 182-197). *)
Definition deleteUser : middleware := fun q db =>
  match Prisma.delete (paramValue (params_id q)) db with
  | (db', inr deletedUser) =>
      Respond (json 200 (JObj
        [("message", JStr ("User " ++ name deletedUser.2 ++ " deleted successfully"));
         ("user", userJson deletedUser)])) db'
  | (db', inl err) =>
      if hasCode err "P2025" then Respond notFound db'
      else NextError err q db'
  end.

(** 404 handler for undefined routes (lines 200-202). *)
Definition routeNotFound : middleware := fun q db =>
  Respond (json 404 (errorBody "Route not found")) db.

(** The stack, in the order of the [app.use] and route registrations. *)
Definition app : list layer :=
  [ Use cors;                                            (* line 10 *)
    Use requestLogger;                                   (* line 13 *)
    UseError jsonErrorHandler;                           (* line 19 *)
    Use express_json;                                    (* line 26 *)
    Route GET PUsers [listUsers];                        (* line 72 *)
    Route GET PUsersId [validateId; getUser];            (* line 84 *)
    Route POST PUsers [validateUserInput; createUser];   (* line 99 *)
    Route PUT PUsersId [validateId; validateUserInput; replaceUser];
    Route PATCH PUsersId [validateId; patchUser];        (* line 135 *)
    Route DELETE PUsersId [validateId; deleteUser];      (* line 182 *)
    Use routeNotFound;                                   (* line 200 *)
    UseError errorHandler ].                             (* line 205 *)

(** One request served against a store. *)
Definition handle (db : store) (r : request) : store * response :=
  dispatch app None (mkReq r NoParam None) db.

End App.

(* ===================================================================== *)
(** ** Vocabulary of the specification *)
(* ===================================================================== *)

Module Spec.

Import Prisma Express App.

(** The body the handlers see when the parser accepts the request. *)
Definition parsed (raw : rawBody) : option Js.json :=
  match raw with
  | NoJson => Some (JObj [])
  | Refused _ => None
  | Object o => Some (JObj o)
  | Array l => Some (JArr l)
  end.

(** A payload supplies a field when the key is present. *)
Definition supplied (b : Js.json) (k : string) : bool :=
  negb (isUndefined (get b k)).

(** The path segment is parsed to the Number of the integer [i], at
    least 1. *)
Definition validId (segment : string) (i : Z) : Prop :=
  Num.parseInt segment = Num.ofZ i /\ 1 <= i.

(** Full-input validation in the words of section 4.1: [name] is a string,
    non-empty after trimming; [email] matches the address pattern; [age],
    if present, is an integer at least 0. *)
Definition validName (v : value) : bool :=
  match v with
  | Some (JStr s) => negb (String.eqb (Str.trim s) "")
  | _ => false
  end.

Definition validEmail (v : value) : bool :=
  match v with
  | Some (JStr s) => Regex.matches emailPattern s
  | _ => false
  end.

Definition validAge (v : value) : bool :=
  match v with
  | None => true
  | Some (JNum n) => Num.isInteger n && negb (Num.ltZ n 0)
  | Some _ => false
  end.

Definition validInput (b : Js.json) : bool :=
  validName (get b "name") && validEmail (get b "email") && validAge (get b "age").

(** The age a valid input asks to store: none when the field is absent. *)
Definition storedAge (v : value) : option Z :=
  match v with
  | Some (JNum n) => Some (Num.toZ n)
  | _ => None
  end.

(** Normalization: [name] trimmed, [email] lower-cased and trimmed. *)
Definition normalName (b : Js.json) : string := Str.trim (str (get b "name")).

Definition normalEmail (b : Js.json) : string :=
  Str.trim (Str.toLowerCase (str (get b "email"))).

Definition normalized (b : Js.json) : Js.json :=
  set (set b "name" (JStr (normalName b))) "email" (JStr (normalEmail b)).

(** The record that a valid input describes. *)
Definition record (b : Js.json) : UserData :=
  mkData (normalName b) (normalEmail b) (storedAge (get b "age")).

(** The payload of a partial update completed with a valid [name] and a
    valid [email] where it supplies none, so that the full-input
    validation can be run on it. *)
Definition completed (o : list (string * Js.json)) : Js.json :=
  let b := JObj o in
  let b := if supplied b "name" then b else set b "name" (JStr "x") in
  if supplied b "email" then b else set b "email" (JStr "x@y.zz").

(** The fields of [f] that the payload [b] supplies. *)
Definition restricted (b : Js.json) (f : fields) : fields :=
  mkFields (if supplied b "name" then f_name f else None)
           (if supplied b "email" then f_email f else None)
           (if supplied b "age" then f_age f else None).

(** The fields a handler reads from the body of [q]. *)
Definition destructured (q : req) : fields :=
  fieldsOf (default JNull (body q)).

(** Partial-input validation as section 4.1 words it: the full-input
    validation, restricted to the supplied fields. *)
Definition fullValidationRestricted (q : req) (db : store)
  (o : list (string * Js.json)) : checked :=
  match validateUserInput (set_body q (completed o)) db with
  | Respond r _ => Rejected r
  | NextError e _ _ => Raised e
  | Next q' _ => Accepted (restricted (JObj o) (destructured q'))
  end.

(** The longest leading run of decimal digits of a path segment, and the
    integer it denotes. *)
Definition isDecimalDigit (c : ascii) : bool :=
  (48 <=? Str.code c) && (Str.code c <=? 57).

Fixpoint decimalPrefix (s : string) : string :=
  match s with
  | EmptyString => EmptyString
  | String c s' =>
      if isDecimalDigit c then String c (decimalPrefix s') else EmptyString
  end.

Definition decimalValue (s : string) : Z :=
  fold_left (fun acc c => 10 * acc + (Str.code c - 48)) (list_ascii_of_string s) 0.

(** The request object when a route starts, after the body parser. *)
Definition routed (r : request) (p : param) (b : Js.json) : req :=
  mkReq r p (Some b).

(** A handler that never passes the request on. *)
Definition ends (h : middleware) : Prop :=
  forall q db q' db', h q db <> Next q' db'.

(** The methods of the routes that take an id. *)
Definition takesId (m : method) : bool :=
  match m with
  | GET | PUT | PATCH | DELETE => true
  | _ => false
  end.

Definition invalidId : response := json 400 (errorBody "Invalid ID parameter").

(** The requests that create or update a user. *)
Definition writes (m : method) (t : target) : bool :=
  match m, t with
  | POST, Users | PUT, UsersId _ | PATCH, UsersId _ => true
  | _, _ => false
  end.

(** The invariant of section 3: every id in use is below the next id to
    assign, and no two users share an email. *)
Definition wellFormed (db : store) : Prop :=
  (forall i d, rows db !! i = Some d -> i < next_id db)
  /\ (forall i j d d',
        rows db !! i = Some d -> rows db !! j = Some d' ->
        email d = email d' -> i = j).

Definition storeOf (o : outcome) : store :=
  match o with
  | Respond _ db | Next _ db | NextError _ _ db => db
  end.


(** Users in strictly ascending order of [id]. *)
Definition ascending (us : list User) : Prop :=
  StronglySorted (fun u v : User => u.1 < v.1) us.

(** Some route is registered for the method and the path. *)
Definition hasRoute (m : method) (t : target) : bool :=
  existsb (fun l => match l with
                    | Route m' p _ =>
                        methodMatches m' m
                        && match pathMatches p t with Some _ => true | None => false end
                    | _ => false
                    end) app.

(** The methods whose routes only read. *)
Definition readOnly (m : method) : bool :=
  match m with
  | GET | HEAD | OPTIONS => true
  | _ => false
  end.

(** No row other than [self] holds the email [e]. *)
Definition emailFree (e : string) (self : option Z) (db : store) : Prop :=
  forall j d, rows db !! j = Some d -> Some j <> self -> email d <> e.

(** The requests that pass through the full-input validation: POST /users,
    and PUT /users/:id once the id is accepted. *)
Definition fullInput (m : method) (t : target) : bool :=
  match m, t with
  | POST, Users => true
  | PUT, UsersId seg =>
      match Num.parseIntMath seg with
      | Some n => 1 <=? n
      | None => false
      end
  | _, _ => false
  end.

(** A value on which [.match] cannot be called: truthy and not a string. *)
Definition raisesOnEmail (v : value) : bool := truthy v && negb (isString v).

(** The message of the first check that an input fails, the checks taken
    in the order [name], [email], [age]. *)
Definition rejection (b : Js.json) : option string :=
  if negb (validName (get b "name")) then Some "Valid name is required"
  else if negb (validEmail (get b "email")) then Some "Valid email is required"
  else if negb (validAge (get b "age")) then Some "Age must be a positive integer"
  else None.

Definition wentWrong (message : string) : response :=
  json 500 (JObj [("error", JStr "Something went wrong!");
                  ("message", JStr message)]).

(** Partial-input validation in the words of section 4.1: each field that
    is present is valid, and at least one is present. *)
Definition validPatch (b : Js.json) : bool :=
  (negb (supplied b "name") || validName (get b "name"))
  && (negb (supplied b "email") || validEmail (get b "email"))
  && validAge (get b "age")
  && (supplied b "name" || supplied b "email" || supplied b "age").

(** The inputs that an update accepts, by method. *)
Definition validUpdate (m : method) (b : Js.json) : bool :=
  match m with
  | PUT => validInput b
  | PATCH => validPatch b
  | _ => false
  end.

(** The record after an update: each field the body supplies takes its
    normalized value, every other field keeps the old one. *)
Definition updated (b : Js.json) (old : UserData) : UserData :=
  mkData (if supplied b "name" then normalName b else name old)
         (if supplied b "email" then normalEmail b else email old)
         (if supplied b "age" then storedAge (get b "age") else age old).

(** The [data] that an update passes to the client. *)
Definition written (b : Js.json) : fields :=
  mkFields (if supplied b "name" then Some (JStr (normalName b)) else None)
           (if supplied b "email" then Some (JStr (normalEmail b)) else None)
           (get b "age").

(** The store after a sequence of requests, served one after the other. *)
Definition serve (db : store) (requests : list request) : store :=
  fold_left (fun db r => (handle db r).1) requests db.

(** The answers of the service: 204 without a body, 200 or 201 with a JSON
    body, or 400, 404, 409 or 500 with an object whose first member is
    [error] with a string. *)
Definition wellShaped (r : response) : Prop :=
  (status r = 204 /\ payload r = None)
  \/ ((status r = 200 \/ status r = 201) /\ exists j, payload r = Some j)
  \/ ((status r = 400 \/ status r = 404 \/ status r = 409 \/ status r = 500)
      /\ exists msg rest, payload r = Some (JObj (("error", JStr msg) :: rest))).

(** Every response that a layer sends has the property [P]. *)
Definition answers (P : response -> Prop) (l : layer) : Prop :=
  match l with
  | Use f => forall q db r db', f q db = Respond r db' -> P r
  | UseError f => forall e q db r db', f e q db = Respond r db' -> P r
  | Route _ _ handlers =>
      Forall (fun h : middleware =>
                forall q db r db', h q db = Respond r db' -> P r) handlers
  end.

(** The shape of an address: a local part, [@], a domain, [.] and a last
    part, the three parts non-empty and free of white space and of [@]. *)
Definition addressShaped (e : string) : Prop :=
  exists l d t : string,
    e = l ++ "@" ++ d ++ "." ++ t
    /\ l <> "" /\ d <> "" /\ t <> ""
    /\ Str.all notSpaceAt l = true
    /\ Str.all notSpaceAt d = true
    /\ Str.all notSpaceAt t = true.

(** The normal form of what is stored (section 3): a name is non-empty and
    has no white space around it; an email matches the address pattern and
    is in lower case. *)
Definition normalRecord (d : UserData) : Prop :=
  (name d <> "" /\ Str.trim (name d) = name d)
  /\ (Regex.matches emailPattern (email d) = true
      /\ Str.toLowerCase (email d) = email d).

Definition normalForm (db : store) : Prop :=
  forall i d, rows db !! i = Some d -> normalRecord d.

(** The [data] of a write, field by field: absent, or a string in normal
    form. *)
Definition normalFields (f : fields) : Prop :=
  (f_name f = None
   \/ exists s, f_name f = Some (JStr s) /\ s <> "" /\ Str.trim s = s)
  /\ (f_email f = None
      \/ exists e, f_email f = Some (JStr e)
                   /\ Regex.matches emailPattern e = true
                   /\ Str.toLowerCase e = e).

(** A layer that keeps a property of the store, a route taken as a whole. *)
Definition routeKeeps (P : store -> Prop) (l : layer) : Prop :=
  match l with
  | Use f => forall q db, P db -> P (storeOf (f q db))
  | UseError f => forall e q db, P db -> P (storeOf (f e q db))
  | Route _ _ handlers => forall q db, P db -> P (storeOf (runRoute handlers q db))
  end.

(** A string that does not begin with white space. *)
Definition headClean (s : string) : Prop :=
  match s with
  | EmptyString => True
  | String c _ => Str.isWhiteSpace c = false
  end.

(** The age that a payload asks to store, if any, fits the integer column
    of the store. The validation sets no upper bound on [age]; the client
    refuses a value outside the column's range. *)
Definition ageFits (v : value) : bool :=
  match storedAge v with
  | Some a => fits64 a
  | None => true
  end.

Definition storable (b : Js.json) : bool := ageFits (get b "age").

End Spec.

(* ===================================================================== *)
(** ** Properties *)
(* ===================================================================== *)

Import Prisma Express App.

(** *** Numbers *)

Lemma ofZ_isNaN i : Num.isNaN (Num.ofZ i) = false.
Proof. reflexivity. Qed.

Lemma ofZ_ltZ i k : Num.ltZ (Num.ofZ i) k = (i <? k).
Proof. unfold Num.ltZ, Num.ofZ, inject_Z. cbn. by rewrite Z.mul_1_r. Qed.

Lemma idArg_ofZ i : idArg (Some (JNum (Num.ofZ i))) = Some i.
Proof.
  unfold idArg, Num.isInteger, Num.toZ, Num.ofZ, inject_Z. cbn.
  by rewrite Z.mod_1_r, Z.div_1_r.
Qed.

(** *** Routing: which handlers serve a request *)

Section Routing.

Variables (db : store) (raw : rawBody) (b : Js.json).
Hypothesis parse_ok : Spec.parsed raw = Some b.

Ltac route := unfold handle, app; destruct raw; inversion parse_ok; reflexivity.

Lemma handle_list :
  let r := mkRequest GET Users raw in
  handle db r = resume (drop 5 app) (listUsers (Spec.routed r NoParam b) db).
Proof. route. Qed.

Lemma handle_get seg :
  let r := mkRequest GET (UsersId seg) raw in
  handle db r
  = resume (drop 6 app)
      (runRoute [validateId; getUser] (Spec.routed r (Segment seg) b) db).
Proof. route. Qed.

Lemma handle_post :
  let r := mkRequest POST Users raw in
  handle db r
  = resume (drop 7 app)
      (runRoute [validateUserInput; createUser] (Spec.routed r NoParam b) db).
Proof. route. Qed.

Lemma handle_put seg :
  let r := mkRequest PUT (UsersId seg) raw in
  handle db r
  = resume (drop 8 app)
      (runRoute [validateId; validateUserInput; replaceUser]
         (Spec.routed r (Segment seg) b) db).
Proof. route. Qed.

Lemma handle_patch seg :
  let r := mkRequest PATCH (UsersId seg) raw in
  handle db r
  = resume (drop 9 app)
      (runRoute [validateId; patchUser] (Spec.routed r (Segment seg) b) db).
Proof. route. Qed.

Lemma handle_delete seg :
  let r := mkRequest DELETE (UsersId seg) raw in
  handle db r
  = resume (drop 10 app)
      (runRoute [validateId; deleteUser] (Spec.routed r (Segment seg) b) db).
Proof. route. Qed.

End Routing.

Lemma runRoute_cons h hs q db :
  runRoute (h :: hs) q db
  = match h q db with
    | Next q' db' => runRoute hs q' db'
    | o => o
    end.
Proof. reflexivity. Qed.

Lemma runRoute_one h q db : runRoute [h] q db = h q db.
Proof. cbn. by destruct (h q db). Qed.

(** Once a response is sent, or an error raised, no later route matters. *)
Lemma resume_respond n r db : resume (drop n app) (Respond r db) = (db, r).
Proof. reflexivity. Qed.

Lemma resume_error n e q db :
  (4 <= n <= 11)%nat ->
  resume (drop n app) (NextError e q db)
  = (db, json 500 (JObj [("error", JStr "Something went wrong!");
                         ("message", JStr (e_message e))])).
Proof.
  intros Hn. do 4 (destruct n as [|n]; [lia|]).
  do 8 (destruct n as [|n]; [reflexivity|]). lia.
Qed.

(** A refused body skips every route and ends at the error handler. *)
Lemma handle_refused db m t msg :
  m <> OPTIONS ->
  handle db (mkRequest m t (Refused msg))
  = (db, json 500 (JObj [("error", JStr "Something went wrong!");
                         ("message", JStr msg)])).
Proof. intros Hm. destruct m; try done; destruct t; reflexivity. Qed.

(** *** Identifier validation *)

Lemma validateId_valid seg i q db :
  params_id q = Segment seg -> Spec.validId seg i ->
  validateId q db = Next (set_params_id q (Parsed (Num.ofZ i))) db.
Proof.
  intros Hq [Hp Hi]. unfold validateId. rewrite Hq. cbn. rewrite Hp.
  rewrite ofZ_isNaN, ofZ_ltZ. cbn.
  destruct (Z.ltb_spec i 1); [lia | done].
Qed.

(** *** Deleting *)

Lemma deleteUser_existing q db i d :
  params_id q = Parsed (Num.ofZ i) -> rows db !! i = Some d ->
  deleteUser q db
  = Respond (json 200 (JObj
      [("message", JStr ("User " ++ name d ++ " deleted successfully"));
       ("user", userJson (i, d))]))
      (with_rows (base.delete i (rows db)) (send (QDelete i) db)).
Proof.
  intros Hq Hd. unfold deleteUser, Prisma.delete. rewrite Hq. cbn [paramValue].
  rewrite idArg_ofZ, Hd. reflexivity.
Qed.

Lemma deleteUser_absent q db i :
  params_id q = Parsed (Num.ofZ i) -> rows db !! i = None ->
  deleteUser q db = Respond notFound (send (QDelete i) db).
Proof.
  intros Hq Hd. unfold deleteUser, Prisma.delete. rewrite Hq. cbn [paramValue].
  rewrite idArg_ofZ, Hd. reflexivity.
Qed.

(** C9. For a valid id, DELETE /users/:id on an existing user answers 200
    with the deleted record in the body and removes the record, leaving
    every other one in place; the same DELETE sent again answers 404
    "User not found" and removes nothing. *)
Theorem delete_then_not_found db seg i raw b d :
  Spec.parsed raw = Some b ->
  Spec.validId seg i ->
  rows db !! i = Some d ->
  let r := mkRequest DELETE (UsersId seg) raw in
  exists db1,
    handle db r
    = (db1, json 200 (JObj
         [("message", JStr ("User " ++ name d ++ " deleted successfully"));
          ("user", userJson (i, d))]))
    /\ rows db1 = base.delete i (rows db)
    /\ rows db1 !! i = None
    /\ exists db2,
         handle db1 r = (db2, json 404 (errorBody "User not found"))
         /\ rows db2 = rows db1.
Proof.
  intros Hb Hid Hd r.
  eexists. split; [|split; [|split]].
  - subst r. rewrite (handle_delete _ _ _ Hb). cbn [runRoute].
    rewrite (validateId_valid seg i) by done.
    rewrite (deleteUser_existing _ _ i d) by done.
    apply resume_respond.
  - reflexivity.
  - cbn. apply lookup_delete_eq.
  - eexists. split.
    + subst r. rewrite (handle_delete _ _ _ Hb). cbn [runRoute].
      rewrite (validateId_valid seg i) by done.
      rewrite (deleteUser_absent _ _ i); [apply resume_respond | done |].
      cbn. apply lookup_delete_eq.
    + reflexivity.
Qed.

(** *** Objects *)

Lemma assoc_set_same o k v : assoc k (assoc_set k v o) = Some v.
Proof.
  induction o as [|[k' v'] o IH]; cbn.
  - by rewrite String.eqb_refl.
  - destruct (String.eqb k k') eqn:E; cbn; rewrite ?String.eqb_refl, ?E; done.
Qed.

Lemma assoc_set_other o k k' v : k <> k' -> assoc k' (assoc_set k v o) = assoc k' o.
Proof.
  intros Hne. induction o as [|[k0 v0] o IH]; cbn.
  - destruct (String.eqb_spec k' k); congruence.
  - destruct (String.eqb_spec k k0) as [->|]; cbn.
    + destruct (String.eqb_spec k' k0); congruence.
    + destruct (String.eqb_spec k' k0); congruence.
Qed.

Lemma get_set_same o k v : get (set (JObj o) k v) k = Some v.
Proof. apply assoc_set_same. Qed.

Lemma get_set_other o k k' v :
  k <> k' -> get (set (JObj o) k v) k' = get (JObj o) k'.
Proof. apply assoc_set_other. Qed.

Lemma fieldsOf_normalized o :
  fieldsOf (Spec.normalized (JObj o))
  = mkFields (Some (JStr (Spec.normalName (JObj o))))
             (Some (JStr (Spec.normalEmail (JObj o))))
             (get (JObj o) "age").
Proof.
  unfold fieldsOf, Spec.normalized. cbn [set get]. f_equal.
  - by rewrite assoc_set_other, assoc_set_same.
  - by rewrite assoc_set_same.
  - by rewrite !assoc_set_other.
Qed.

(** *** Full-input validation *)

Lemma empty_length (t : string) : String.eqb t "" = (String.length t =? 0)%nat.
Proof. by destruct t. Qed.

Lemma trim_nonempty s : Str.trim s <> "" -> s <> "".
Proof. by intros H ->. Qed.

Lemma validInput_object b : Spec.validInput b = true -> exists o, b = JObj o.
Proof. destruct b; try discriminate. eauto. Qed.

Lemma matches_nonempty e : Regex.matches emailPattern e = true -> e <> "".
Proof. by intros H ->. Qed.

Lemma validAge_passes v :
  Spec.validAge v = true -> negb (isUndefined v) && invalidAge v = false.
Proof.
  destruct v as [[| |n| | |]|]; try done.
  unfold invalidAge. cbn [Spec.validAge isUndefined isNumber typeof num negb andb orb].
  intros [Hi Hl]%andb_prop. apply negb_true_iff in Hl. by rewrite Hi, Hl.
Qed.

Lemma validAge_fails v :
  Spec.validAge v = false -> negb (isUndefined v) && invalidAge v = true.
Proof.
  destruct v as [[| |n| | |]|]; try done.
  unfold invalidAge. cbn [Spec.validAge isUndefined isNumber typeof num negb andb orb].
  intros [Hi|Hl]%andb_false_iff.
  - rewrite Hi. cbn. apply orb_true_r.
  - apply negb_false_iff in Hl. by rewrite Hl.
Qed.

(** The middleware accepts the inputs that section 4.1 calls valid, and
    passes them on normalized. *)
Lemma validateUserInput_valid q db b :
  body q = Some b -> Spec.validInput b = true ->
  validateUserInput q db = Next (set_body q (Spec.normalized b)) db.
Proof.
  intros Hq Hv. unfold validateUserInput. rewrite Hq. unfold fieldsOf.
  unfold Spec.validInput in Hv. apply andb_prop in Hv as [Hv Ha].
  apply andb_prop in Hv as [Hn He].
  unfold Spec.normalized, Spec.normalName, Spec.normalEmail.
  destruct (get b "name") as [[| | |n| |]|]; try discriminate.
  destruct (get b "email") as [[| | |e| |]|]; try discriminate.
  cbn [Spec.validName Spec.validEmail] in Hn, He.
  cbn [truthy invalidName isString typeof str noMatch negb orb].
  apply negb_true_iff in Hn.
  assert (n <> "") as Hn'.
  { apply trim_nonempty. by intros E; rewrite E in Hn. }
  apply String.eqb_neq in Hn'. rewrite Hn', <- empty_length, Hn. cbn [negb orb].
  pose proof (matches_nonempty _ He) as He'.
  apply String.eqb_neq in He'. rewrite He', He.
  cbn [negb orElse]. by rewrite (validAge_passes _ Ha).
Qed.

(** Every other input is answered with 400 or raises; none is passed on. *)
Lemma validateUserInput_invalid q db b :
  body q = Some b -> Spec.validInput b = false ->
  (exists msg, validateUserInput q db = Respond (json 400 (errorBody msg)) db)
  \/ (exists e, validateUserInput q db = NextError e q db).
Proof.
  intros Hq Hv. unfold validateUserInput. rewrite Hq. unfold fieldsOf.
  unfold Spec.validInput in Hv.
  destruct (negb (truthy (get b "name")) || invalidName (get b "name")) eqn:En;
    [eauto|].
  apply orb_false_iff in En as [Et En].
  assert (Spec.validName (get b "name") = true) as Hn.
  { destruct (get b "name") as [[| | |n| |]|]; try discriminate.
    cbn in En |- *. rewrite empty_length. unfold Str.trim. by rewrite En. }
  rewrite Hn in Hv. cbn [andb] in Hv.
  destruct (get b "email") as [[| |x|e| |]|] eqn:Ee; cbn [truthy negb orElse]; eauto.
  - destruct b0; cbn; eauto.
  - destruct (Num.nonzero x); cbn; eauto.
  - destruct (negb (e =? "")%string); cbn [negb orElse]; eauto.
    cbn [noMatch isString typeof str]. cbn [Spec.validEmail] in Hv.
    destruct (Regex.matches emailPattern e); cbn [negb andb] in *; eauto.
    rewrite (validAge_fails _ Hv). eauto.
Qed.

(** *** Creating *)

Lemma column_age v :
  Spec.validAge v = true -> Spec.ageFits v = true ->
  column intArg v = Some (if isUndefined v then None else Some (Spec.storedAge v)).
Proof.
  destruct v as [[| |n| | |]|]; try done.
  unfold column, Spec.ageFits.
  cbn [Spec.validAge Spec.storedAge isUndefined intArg fmap option_fmap option_map].
  intros [Hi _]%andb_prop Hf. by rewrite Hi, Hf.
Qed.

(** An age that passes the validation and does not fit the column is
    refused by the client. *)
Lemma column_age_refused v :
  Spec.validAge v = true -> Spec.ageFits v = false -> column intArg v = None.
Proof.
  destruct v as [[| |n| | |]|]; try done.
  unfold column, Spec.ageFits.
  cbn [Spec.validAge Spec.storedAge isUndefined intArg fmap option_fmap option_map].
  intros [Hi _]%andb_prop Hf. by rewrite Hi, Hf.
Qed.

Lemma createUser_valid q db b :
  body q = Some (Spec.normalized b) -> Spec.validInput b = true ->
  Spec.storable b = true ->
  let d := Spec.record b in
  createUser q db
  = if emailTaken (email d) None (rows db)
    then Respond emailExists (send (QCreate d) db)
    else Respond (json 201 (userJson (next_id db, d)))
           (mkStore (<[next_id db := d]> (rows db)) (next_id db + 1)
              (QCreate d :: sent db)).
Proof.
  intros Hq Hv Hf d. destruct (validInput_object _ Hv) as [o ->].
  unfold createUser, create. rewrite Hq. cbn [destructure].
  rewrite fieldsOf_normalized. cbn [f_name f_email f_age stringArg].
  apply andb_prop in Hv as [_ Ha]. rewrite (column_age _ Ha Hf).
  assert (default None (if isUndefined (get (JObj o) "age") then None
                        else Some (Spec.storedAge (get (JObj o) "age")))
          = Spec.storedAge (get (JObj o) "age")) as ->.
  { by destruct (get (JObj o) "age"). }
  fold (Spec.record (JObj o)). fold d. cbn [email].
  by destruct (emailTaken _ None (rows db)).
Qed.

(** A valid input whose age does not fit the column is refused by the
    client before any query: the handler passes the error on. *)
Lemma createUser_refused q db b :
  body q = Some (Spec.normalized b) -> Spec.validInput b = true ->
  Spec.storable b = false ->
  createUser q db = NextError validationError q db.
Proof.
  intros Hq Hv Hf. destruct (validInput_object _ Hv) as [o ->].
  unfold createUser, create. rewrite Hq. cbn [destructure].
  rewrite fieldsOf_normalized. cbn [f_name f_email f_age stringArg].
  apply andb_prop in Hv as [_ Ha]. by rewrite (column_age_refused _ Ha Hf).
Qed.

(** A row is found by the search for its email. *)
Lemma emailTaken_row m j d self :
  m !! j = Some d -> Some j <> self -> emailTaken (email d) self m = true.
Proof.
  intros Hj Hs. unfold emailTaken. apply existsb_exists.
  exists (j, d). split.
  - apply list_elem_of_In, elem_of_map_to_list, Hj.
  - cbn. rewrite String.eqb_refl. cbn. by rewrite bool_decide_eq_false_2.
Qed.

Lemma userJson_inj u v : userJson u = userJson v -> u = v.
Proof.
  destruct u as [i [n e a]], v as [j [n' e' a']]. unfold userJson. cbn.
  intros H. injection H as Hi Hn He Ha. subst.
  destruct a as [x|], a' as [y|]; try discriminate; [|done].
  by injection Ha as ->.
Qed.

(** What a successful POST /users did: the input was valid, its email
    was free, and its record was inserted under the next id. *)
Lemma post_created db raw b db1 r1 :
  Spec.parsed raw = Some b ->
  handle db (mkRequest POST Users raw) = (db1, r1) -> status r1 = 201 ->
  Spec.validInput b = true
  /\ emailTaken (Spec.normalEmail b) None (rows db) = false
  /\ rows db1 = <[next_id db := Spec.record b]> (rows db)
  /\ r1 = json 201 (userJson (next_id db, Spec.record b)).
Proof.
  intros Hb H Hs. rewrite (handle_post _ _ _ Hb) in H. cbn [runRoute] in H.
  destruct (Spec.validInput b) eqn:Hv.
  - rewrite (validateUserInput_valid _ _ b) in H by done.
    destruct (Spec.storable b) eqn:Hf.
    + rewrite (createUser_valid _ _ b) in H by done. cbn [email Spec.record] in H.
      destruct (emailTaken _ None (rows db)); rewrite resume_respond in H;
        injection H as <- <-; done.
    + rewrite (createUser_refused _ _ b) in H by done.
      rewrite resume_error in H by lia. by injection H as <- <-.
  - destruct (validateUserInput_invalid (Spec.routed (mkRequest POST Users raw) NoParam b)
                db b eq_refl Hv) as [[msg E]|[e E]]; rewrite E in H.
    + rewrite resume_respond in H. by injection H as <- <-.
    + rewrite resume_error in H by lia. by injection H as <- <-.
Qed.

(** C7. When a create request succeeds, a following create request with
    the same normalized email, whose input is valid and whose age (if it
    has one) fits the integer column of the store, is answered 409 "Email
    already exists", and it inserts no user. *)
Theorem second_create_conflicts db raw1 b1 raw2 b2 db1 r1 :
  Spec.parsed raw1 = Some b1 ->
  Spec.parsed raw2 = Some b2 ->
  Spec.validInput b2 = true ->
  Spec.storable b2 = true ->
  Spec.normalEmail b2 = Spec.normalEmail b1 ->
  handle db (mkRequest POST Users raw1) = (db1, r1) ->
  status r1 = 201 ->
  exists db2,
    handle db1 (mkRequest POST Users raw2)
    = (db2, json 409 (errorBody "Email already exists"))
    /\ rows db2 = rows db1.
Proof.
  intros Hb1 Hb2 Hv2 Hf2 He H1 Hs.
  destruct (post_created _ _ _ _ _ Hb1 H1 Hs) as (_ & _ & Hrows & _).
  rewrite (handle_post _ _ _ Hb2). cbn [runRoute].
  rewrite (validateUserInput_valid _ _ b2) by done.
  rewrite (createUser_valid _ _ b2) by done. cbn [email Spec.record].
  rewrite He.
  change (Spec.normalEmail b1) with (email (Spec.record b1)).
  rewrite (emailTaken_row (rows db1) (next_id db) (Spec.record b1) None).
  - eexists. split; [apply resume_respond | reflexivity].
  - rewrite Hrows. apply lookup_insert_eq.
  - done.
Qed.

(** *** Updating *)

Lemma replaceUser_valid q db b i :
  body q = Some (Spec.normalized b) -> Spec.validInput b = true ->
  Spec.storable b = true ->
  params_id q = Parsed (Num.ofZ i) ->
  replaceUser q db
  = match rows db !! i with
    | None => Respond notFound (send (QUpdate i) db)
    | Some old =>
        if emailTaken (Spec.normalEmail b) (Some i) (rows db)
        then Respond emailExists (send (QUpdate i) db)
        else
          let d := mkData (Spec.normalName b) (Spec.normalEmail b)
                     (if Spec.supplied b "age" then Spec.storedAge (get b "age")
                      else age old) in
          Respond (json 200 (userJson (i, d)))
            (with_rows (<[i := d]> (rows db)) (send (QUpdate i) db))
    end.
Proof.
  intros Hq Hv Hf Hi. destruct (validInput_object _ Hv) as [o ->].
  unfold replaceUser, update. rewrite Hq, Hi. cbn [destructure paramValue].
  rewrite idArg_ofZ, fieldsOf_normalized. cbn [f_name f_email f_age].
  apply andb_prop in Hv as [_ Ha]. rewrite (column_age _ Ha Hf).
  unfold column, Spec.supplied. cbn [isUndefined stringArg fmap option_fmap option_map].
  destruct (rows db !! i) as [old|]; [|done].
  destruct (emailTaken _ (Some i) (rows db)); [done|].
  by destruct (get (JObj o) "age").
Qed.

(** C3. A full update whose body has no [age] leaves the stored age as it
    was: PUT /users/1 with a name and an email, on a user of age [a],
    answers 200 with age [a] and stores age [a]. *)
Theorem put_without_age_keeps_age (a : Z) :
  let db := mkStore {[ 1 := mkData "Ann" "ann@x.org" (Some a) ]} 2 [] in
  let r := mkRequest PUT (UsersId "1")
             (Object [("name", JStr "Bea"); ("email", JStr "bea@x.org")]) in
  exists db',
    handle db r = (db', json 200 (userJson (1, mkData "Bea" "bea@x.org" (Some a))))
    /\ rows db' !! 1 = Some (mkData "Bea" "bea@x.org" (Some a)).
Proof.
  intros db r. subst r.
  pose (o := [("name", JStr "Bea"); ("email", JStr "bea@x.org")]).
  rewrite (handle_put db (Object o) (JObj o) eq_refl). cbn [runRoute].
  rewrite (validateId_valid "1" 1) by (done || (split; [by vm_compute | lia])).
  rewrite (validateUserInput_valid _ _ (JObj o)) by done.
  rewrite (replaceUser_valid _ _ (JObj o) 1) by done.
  subst db. cbn [rows]. rewrite lookup_singleton_eq.
  unfold emailTaken. rewrite map_to_list_singleton.
  eexists. split; [apply resume_respond|].
  cbn. apply lookup_insert_eq.
Qed.

(** *** Partial update *)

Lemma not_supplied b k : Spec.supplied b k = false -> get b k = None.
Proof. unfold Spec.supplied. by destruct (get b k). Qed.

Lemma fieldsOf_set_set o n e :
  fieldsOf (set (set (JObj o) "name" n) "email" e)
  = mkFields (Some n) (Some e) (assoc "age" o).
Proof.
  unfold fieldsOf. cbn [set get]. f_equal.
  - by rewrite assoc_set_other, assoc_set_same.
  - by rewrite assoc_set_same.
  - by rewrite !assoc_set_other.
Qed.

Lemma completed_fields o :
  exists o',
    Spec.completed o = JObj o'
    /\ assoc "name" o' = Some (default (JStr "x") (assoc "name" o))
    /\ assoc "email" o' = Some (default (JStr "x@y.zz") (assoc "email" o))
    /\ assoc "age" o' = assoc "age" o.
Proof.
  unfold Spec.completed, Spec.supplied. cbn [get set].
  destruct (assoc "name" o) as [n|] eqn:En; cbn [isUndefined negb get set].
  - destruct (assoc "email" o) as [e|] eqn:Ee; cbn [isUndefined negb];
      (eexists; split; [reflexivity|]);
      repeat split;
      rewrite ?assoc_set_same, ?assoc_set_other, ?En, ?Ee by done; done.
  - rewrite assoc_set_other by done.
    destruct (assoc "email" o) as [e|] eqn:Ee; cbn [isUndefined negb get set];
      (eexists; split; [reflexivity|]);
      repeat split;
      rewrite ?assoc_set_same, ?assoc_set_other, ?assoc_set_same, ?En, ?Ee by done;
      done.
Qed.

(** On a value that is present, the full validation of [name] tests no
    more than the partial one: a falsy value is never a non-blank string. *)
Lemma name_checks_agree n :
  negb (truthy (Some n)) || invalidName (Some n) = invalidName (Some n).
Proof.
  destruct n as [| b | x | s | |]; try done.
  - by destruct b.
  - cbn [truthy]. by destruct (Num.nonzero x).
  - by destruct s.
Qed.

(** C5. The field checks of the partial update give, on every payload,
    what the full-input validation gives on the payload completed with a
    valid [name] and [email] where it has none: the same rejection, the
    same raised error, or the same normalized values for the supplied
    fields and nothing for the others. *)
Theorem patch_checks_refine_full_validation q db o :
  patchFields (Some (JObj o)) = Spec.fullValidationRestricted q db o.
Proof.
  unfold Spec.fullValidationRestricted.
  destruct (completed_fields o) as (o' & -> & Hn & He & Ha).
  unfold patchFields, validateUserInput, destructure.
  cbn [body set_body]. unfold fieldsOf at 1 2. cbn [get].
  rewrite Hn, He, Ha. clear Hn He.
  assert (forall n e,
    Spec.restricted (JObj o)
      (Spec.destructured
         (set_body (set_body q (JObj o'))
            (set (set (JObj o') "name" n) "email" e)))
    = mkFields (if isUndefined (assoc "name" o) then None else Some n)
               (if isUndefined (assoc "email" o) then None else Some e)
               (assoc "age" o)) as Hfields.
  { intros n e. unfold Spec.destructured. cbn [body set_body default]. unfold id.
    rewrite fieldsOf_set_set, Ha. unfold Spec.restricted, Spec.supplied.
    cbn [get f_name f_email f_age].
    by destruct (assoc "name" o), (assoc "email" o), (assoc "age" o). }
  destruct (assoc "name" o) as [n|] eqn:En; cbn [default isUndefined negb andb];
    unfold id.
  - rewrite name_checks_agree.
    destruct (invalidName (Some n)); [done|].
    destruct (assoc "email" o) as [e|] eqn:Ee; cbn [default isUndefined].
    + destruct (orElse _ (noMatch "email" (Some e) patchEmailPattern))
        as [err|[]] eqn:Em;
        change patchEmailPattern with emailPattern in Em; rewrite Em; try done.
      destruct (_ && invalidAge _); [done|]. by rewrite Hfields.
    + change (orElse _ _) with (@inr error bool false).
      destruct (_ && invalidAge _); [done|]. by rewrite Hfields.
  - change (negb _ || invalidName (Some (JStr "x"))) with false.
    destruct (assoc "email" o) as [e|] eqn:Ee; cbn [default isUndefined].
    + destruct (orElse _ (noMatch "email" (Some e) patchEmailPattern))
        as [err|[]] eqn:Em;
        change patchEmailPattern with emailPattern in Em; rewrite Em; try done.
      destruct (_ && invalidAge _); [done|]. by rewrite Hfields.
    + change (orElse _ _) with (@inr error bool false).
      destruct (_ && invalidAge _); [done|]. by rewrite Hfields.
Qed.

(** *** What a successful write stored *)

Lemma create_stored data db db' u x :
  create data db = (db', inr u) -> f_email data = Some (JStr x) ->
  email u.2 = x /\ rows db' !! u.1 = Some u.2.
Proof.
  unfold create. intros H Hx. rewrite Hx in H. cbn [stringArg] in H.
  destruct (stringArg (f_name data)); [|done].
  destruct (column intArg (f_age data)); [|done].
  destruct (emailTaken x None (rows db)); [done|].
  simplify_eq. split; [done|]. cbn. apply lookup_insert_eq.
Qed.

Lemma update_stored id data db db' u x :
  update id data db = (db', inr u) -> f_email data = Some (JStr x) ->
  email u.2 = x /\ rows db' !! u.1 = Some u.2.
Proof.
  unfold update. intros H Hx. rewrite Hx in H.
  unfold column at 2 in H. cbn in H.
  destruct (idArg id); [|done].
  destruct (column stringArg (f_name data)); [|done].
  destruct (column intArg (f_age data)); [|done].
  destruct (rows db !! z); [|done].
  destruct (emailTaken x (Some z) (rows db)); [done|].
  simplify_eq. split; [done|]. cbn. apply lookup_insert_eq.
Qed.

Lemma createUser_stored q db db' b code u x :
  body q = Some b -> get b "email" = Some (JStr x) ->
  createUser q db = Respond (mkResponse code (Some (userJson u))) db' ->
  email u.2 = x /\ rows db' !! u.1 = Some u.2.
Proof.
  intros Hq Hx. unfold createUser. rewrite Hq. cbn [destructure].
  destruct (create (fieldsOf b) db) as [db1 [err|v]] eqn:E.
  - destruct (hasCode err "P2002"); [|done]. intros H. by injection H.
  - intros H. unfold json in H.
    assert (v = u) as -> by (apply userJson_inj; congruence).
    assert (db1 = db') as <- by congruence.
    by apply (create_stored _ _ _ _ _ E).
Qed.

Lemma replaceUser_stored q db db' b code u x :
  body q = Some b -> get b "email" = Some (JStr x) ->
  replaceUser q db = Respond (mkResponse code (Some (userJson u))) db' ->
  email u.2 = x /\ rows db' !! u.1 = Some u.2.
Proof.
  intros Hq Hx. unfold replaceUser. rewrite Hq. cbn [destructure].
  destruct (update _ (fieldsOf b) db) as [db1 [err|v]] eqn:E.
  - destruct (hasCode err "P2025"); [intros H; by injection H|].
    destruct (hasCode err "P2002"); [|done]. intros H. by injection H.
  - intros H. unfold json in H.
    assert (v = u) as -> by (apply userJson_inj; congruence).
    assert (db1 = db') as <- by congruence.
    by apply (update_stored _ _ _ _ _ _ E).
Qed.

Lemma patchFields_email b updateData e :
  patchFields (Some b) = Accepted updateData -> get b "email" = Some (JStr e) ->
  f_email updateData = Some (JStr (Str.trim (Str.toLowerCase e)))
  /\ Regex.matches emailPattern e = true.
Proof.
  unfold patchFields, destructure, fieldsOf. intros H He. rewrite He in H.
  destruct (_ && invalidName _); [done|].
  cbn [isUndefined truthy noMatch isString typeof str] in H.
  destruct (negb (negb (e =? "")%string)); [done|]. cbn [orElse] in H.
  change patchEmailPattern with emailPattern in H.
  destruct (Regex.matches emailPattern e); [|done]. cbn [negb] in H.
  destruct (_ && invalidAge _); [done|]. by injection H as <-.
Qed.

Lemma patchUser_stored q db db' b code u e :
  body q = Some b -> get b "email" = Some (JStr e) ->
  patchUser q db = Respond (mkResponse code (Some (userJson u))) db' ->
  email u.2 = Str.trim (Str.toLowerCase e) /\ rows db' !! u.1 = Some u.2.
Proof.
  intros Hq He. unfold patchUser. rewrite Hq.
  destruct (patchFields (Some b)) as [r|err|updateData] eqn:Ep; [| done |].
  - unfold patchFields, destructure in Ep.
    destruct (fieldsOf b) as [n m a]. intros H. injection H as -> _.
    repeat case_match; simplify_eq.
  - destruct (patchFields_email _ _ _ Ep He) as [Hu _].
    destruct (keyCount updateData =? 0)%nat; [intros H; by injection H|].
    destruct (update _ updateData db) as [db1 [err|v]] eqn:E.
    + destruct (hasCode err "P2025"); [intros H; by injection H|].
      destruct (hasCode err "P2002"); [|done]. intros H. by injection H.
    + intros H. unfold json in H.
    assert (v = u) as -> by (apply userJson_inj; congruence).
      assert (db1 = db') as <- by congruence.
      by apply (update_stored _ _ _ _ _ _ E).
Qed.

(** *** The address pattern admits no white space *)

Section RegexLanguage.

Import Regex.

Lemma dead_not_nullable r : dead r = true -> nullable r = false.
Proof.
  induction r; cbn; try done.
  - intros [H|H]%orb_prop; [rewrite IHr1 | rewrite IHr2, andb_false_r]; done.
  - intros [H1 H2]%andb_prop. by rewrite IHr1, IHr2.
Qed.

Lemma dead_deriv r c : dead r = true -> dead (deriv c r) = true.
Proof.
  induction r; cbn; try done.
  - intros [H|H]%orb_prop.
    + rewrite IHr1 by done. cbn. by rewrite (dead_not_nullable r1).
    + rewrite H, orb_true_r. cbn. destruct (nullable r1); auto.
  - intros [H1 H2]%andb_prop. by rewrite IHr1, IHr2.
Qed.

Lemma dead_no_match s : forall r, dead r = true -> matches r s = false.
Proof.
  induction s as [|c s IH]; intros r Hr; cbn.
  - by apply dead_not_nullable.
  - by apply IH, dead_deriv.
Qed.

Lemma deriv_outside r c : alphabet r c = false -> dead (deriv c r) = true.
Proof.
  induction r; cbn; try done.
  - by intros ->.
  - intros [H1 H2]%orb_false_elim. rewrite IHr1 by done. cbn.
    destruct (nullable r1); auto.
  - intros [H1 H2]%orb_false_elim. by rewrite IHr1, IHr2.
  - intros H. by rewrite IHr.
Qed.

Lemma alphabet_deriv r c c' :
  alphabet (deriv c r) c' = true -> alphabet r c' = true.
Proof.
  induction r; cbn; try done.
  - by destruct (p c).
  - destruct (nullable r1); cbn; rewrite ?orb_false_r;
      intros H; repeat (apply orb_prop in H as [H|H]);
      rewrite ?(IHr1 H), ?(IHr2 H), ?H, ?orb_true_r; done.
  - intros [H|H]%orb_prop; rewrite ?(IHr1 H), ?(IHr2 H), ?orb_true_r; done.
  - intros [H|H]%orb_prop; rewrite ?(IHr H), ?H; done.
Qed.

(** Every character of a matched string is accepted by a class of the
    expression. *)
Lemma matches_alphabet s : forall r,
  matches r s = true -> Str.all (alphabet r) s = true.
Proof.
  induction s as [|c s IH]; intros r H; [done|]. cbn in *.
  destruct (alphabet r c) eqn:Ec.
  - cbn. apply IH in H. clear IH.
    induction s as [|c' s IHs]; [done|]. cbn in *.
    apply andb_prop in H as [H1 H2].
    by rewrite (alphabet_deriv _ _ _ H1), IHs.
  - by rewrite (dead_no_match s _ (deriv_outside _ _ Ec)) in H.
Qed.

End RegexLanguage.

Lemma emailPattern_alphabet c :
  Regex.alphabet emailPattern c = true -> Str.isWhiteSpace c = false.
Proof.
  unfold emailPattern, Regex.Plus, Regex.Chr, notSpaceAt. cbn [Regex.alphabet].
  destruct (Str.isWhiteSpace c) eqn:Ew; [|done]. cbn [orb negb].
  destruct (Ascii.eqb_spec "@" c) as [<-|]; [by vm_compute in Ew|].
  destruct (Ascii.eqb_spec "." c) as [<-|]; [by vm_compute in Ew|done].
Qed.

Lemma trimEnd_no_space s :
  Str.all (fun c => negb (Str.isWhiteSpace c)) s = true -> Str.trimEnd s = s.
Proof.
  induction s as [|c s IH]; [done|]. cbn.
  intros [Hc Hs]%andb_prop. rewrite (IH Hs).
  destruct s; [|done]. apply negb_true_iff in Hc. by rewrite Hc.
Qed.

Lemma trim_no_space s :
  Str.all (fun c => negb (Str.isWhiteSpace c)) s = true -> Str.trim s = s.
Proof.
  intros H. unfold Str.trim.
  assert (Str.trimStart s = s) as ->; [|by apply trimEnd_no_space].
  destruct s as [|c s]; [done|]. cbn in *.
  apply andb_prop in H as [Hc _]. apply negb_true_iff in Hc. by rewrite Hc.
Qed.

Lemma all_impl (p p' : ascii -> bool) s :
  (forall c, p c = true -> p' c = true) -> Str.all p s = true -> Str.all p' s = true.
Proof.
  intros Hp. induction s as [|c s IH]; [done|]. cbn.
  intros [Hc Hs]%andb_prop. by rewrite (Hp _ Hc), IH.
Qed.

(** An input that matches the pattern has no white space to trim. *)
Lemma matched_email_trimmed e :
  Regex.matches emailPattern e = true -> Str.trim e = e.
Proof.
  intros H. apply trim_no_space.
  apply (all_impl (Regex.alphabet emailPattern)); [|by apply matches_alphabet].
  intros c Hc. by rewrite (emailPattern_alphabet c Hc).
Qed.

(** *** The handlers that end a route never pass the request on *)

Lemma createUser_ends : Spec.ends createUser.
Proof. intros q db q' db'. unfold createUser. repeat case_match; done. Qed.

Lemma replaceUser_ends : Spec.ends replaceUser.
Proof. intros q db q' db'. unfold replaceUser. repeat case_match; done. Qed.

Lemma patchUser_ends : Spec.ends patchUser.
Proof. intros q db q' db'. unfold patchUser. repeat case_match; done. Qed.

(** A response that carries a user was sent by the route itself. *)
Lemma resume_user n o db' code u :
  (4 <= n <= 11)%nat ->
  (forall q' db1, o <> Next q' db1) ->
  resume (drop n app) o = (db', mkResponse code (Some (userJson u))) ->
  o = Respond (mkResponse code (Some (userJson u))) db'.
Proof.
  intros Hn Ho H. destruct o as [r db1|q1 db1|e q1 db1].
  - rewrite resume_respond in H. congruence.
  - by destruct (Ho q1 db1).
  - rewrite resume_error in H by done. unfold json, userJson in H. congruence.
Qed.

Lemma validateId_outcome q db :
  validateId q db = Respond (json 400 (errorBody "Invalid ID parameter")) db
  \/ exists n, validateId q db = Next (set_params_id q (Parsed n)) db.
Proof. unfold validateId. destruct (_ || _); eauto. Qed.

Lemma validateUserInput_outcome q db b :
  body q = Some b ->
  (Spec.validInput b = true
   /\ validateUserInput q db = Next (set_body q (Spec.normalized b)) db)
  \/ (exists msg, validateUserInput q db = Respond (json 400 (errorBody msg)) db)
  \/ (exists e, validateUserInput q db = NextError e q db).
Proof.
  intros Hq. destruct (Spec.validInput b) eqn:Hv.
  - left. split; [done|]. by apply validateUserInput_valid.
  - right. by apply (validateUserInput_invalid q db b).
Qed.

Lemma normalized_email b :
  Spec.validInput b = true ->
  get (Spec.normalized b) "email" = Some (JStr (Spec.normalEmail b))
  /\ Regex.matches emailPattern (str (get b "email")) = true.
Proof.
  intros Hv. destruct (validInput_object _ Hv) as [o ->].
  pose proof (fieldsOf_normalized o) as H. unfold fieldsOf in H.
  injection H as _ He _. split; [done|].
  unfold Spec.validInput in Hv. apply andb_prop in Hv as [[_ Hv]%andb_prop _].
  by destruct (get (JObj o) "email") as [[]|].
Qed.

Ltac no_user H :=
  first [ rewrite resume_respond in H | rewrite resume_error in H by lia ];
  unfold json, errorBody, userJson in H; congruence.

(** *** The stored email *)

Lemma write_stored db raw b m t e db' code u :
  Spec.parsed raw = Some b ->
  Spec.writes m t = true ->
  get b "email" = Some (JStr e) ->
  handle db (mkRequest m t raw) = (db', mkResponse code (Some (userJson u))) ->
  Regex.matches emailPattern e = true
  /\ email u.2 = Str.trim (Str.toLowerCase e)
  /\ rows db' !! u.1 = Some u.2.
Proof.
  intros Hb Hw He H.
  destruct m, t as [|seg|]; try discriminate; clear Hw.
  - (* POST /users *)
    rewrite (handle_post _ _ _ Hb), runRoute_cons in H.
    destruct (validateUserInput_outcome (Spec.routed (mkRequest POST Users raw) NoParam b)
                db b eq_refl) as [[Hv E]|[[msg E]|[err E]]];
      rewrite E in H; [|no_user H|no_user H].
    rewrite runRoute_one in H.
    apply resume_user in H; [|lia|intros ??; apply createUser_ends].
    destruct (normalized_email _ Hv) as [Hn Hm]. rewrite He in Hm.
    split; [done|].
    eapply createUser_stored in H; [|reflexivity|exact Hn].
    unfold Spec.normalEmail in H. by rewrite He in H.
  - (* PUT /users/:id *)
    rewrite (handle_put _ _ _ Hb), runRoute_cons in H.
    destruct (validateId_outcome
                (Spec.routed (mkRequest PUT (UsersId seg) raw) (Segment seg) b) db)
      as [E|[n E]]; rewrite E in H; [no_user H|].
    rewrite runRoute_cons in H.
    destruct (validateUserInput_outcome
                (set_params_id
                   (Spec.routed (mkRequest PUT (UsersId seg) raw) (Segment seg) b)
                   (Parsed n)) db b eq_refl) as [[Hv E']|[[msg E']|[err E']]];
      rewrite E' in H; [|no_user H|no_user H].
    rewrite runRoute_one in H.
    apply resume_user in H; [|lia|intros ??; apply replaceUser_ends].
    destruct (normalized_email _ Hv) as [Hn Hm]. rewrite He in Hm.
    split; [done|].
    eapply replaceUser_stored in H; [|reflexivity|exact Hn].
    unfold Spec.normalEmail in H. by rewrite He in H.
  - (* PATCH /users/:id *)
    rewrite (handle_patch _ _ _ Hb), runRoute_cons in H.
    destruct (validateId_outcome
                (Spec.routed (mkRequest PATCH (UsersId seg) raw) (Segment seg) b) db)
      as [E|[n E]]; rewrite E in H; [no_user H|].
    rewrite runRoute_one in H.
    apply resume_user in H; [|lia|intros ??; apply patchUser_ends].
    pose proof H as Hs. eapply patchUser_stored in Hs; [|reflexivity|exact He].
    split; [|done].
    unfold patchUser in H. cbn [body set_params_id Spec.routed] in H.
    destruct (patchFields (Some b)) as [r|err|updateData] eqn:Ep; [|done|].
    + unfold patchFields, destructure in Ep.
      destruct (fieldsOf b). unfold json, errorBody, userJson in *.
      repeat case_match; simplify_eq.
    + by destruct (patchFields_email _ _ _ Ep He).
Qed.

(** C2, as the code has it. Whenever a create or an update answers with
    the user it wrote, the email given in the body matched the address
    pattern, had no white space around it, and the stored email is that
    input lower-cased and trimmed. An input with white space around it does
    not pass validation: [" A@B.COM "] is answered 400 "Valid email is
    required" and nothing is stored, while ["A@B.COM"] is accepted and
    stored as ["a@b.com"]. *)
Theorem stored_email_is_normalized :
  (forall db raw b m t e db' code u,
     Spec.parsed raw = Some b ->
     Spec.writes m t = true ->
     get b "email" = Some (JStr e) ->
     handle db (mkRequest m t raw) = (db', mkResponse code (Some (userJson u))) ->
     Regex.matches emailPattern e = true
     /\ Str.trim e = e
     /\ email u.2 = Str.trim (Str.toLowerCase e)
     /\ rows db' !! u.1 = Some u.2)
  /\ (forall db,
        handle db (mkRequest POST Users
                     (Object [("name", JStr "Ann"); ("email", JStr " A@B.COM ")]))
        = (db, json 400 (errorBody "Valid email is required")))
  /\ (forall db,
        emailTaken "a@b.com" None (rows db) = false ->
        exists db',
          handle db (mkRequest POST Users
                       (Object [("name", JStr "Ann"); ("email", JStr "A@B.COM")]))
          = (db', json 201 (userJson (next_id db, mkData "Ann" "a@b.com" None)))
          /\ rows db' !! next_id db = Some (mkData "Ann" "a@b.com" None)).
Proof.
  split; [|split].
  - intros db raw b m t e db' code u Hb Hw He H.
    destruct (write_stored _ _ _ _ _ _ _ _ _ Hb Hw He H) as (Hm & Hs & Hr).
    auto using matched_email_trimmed.
  - intros db. reflexivity.
  - intros db Hfree.
    set (o := [("name", JStr "Ann"); ("email", JStr "A@B.COM")]).
    rewrite (handle_post db (Object o) (JObj o) eq_refl), runRoute_cons.
    rewrite (validateUserInput_valid _ _ (JObj o)) by done.
    rewrite runRoute_one, (createUser_valid _ _ (JObj o)) by done.
    change (email (Spec.record (JObj o))) with "a@b.com". rewrite Hfree.
    eexists. split; [apply resume_respond|]. cbn. apply lookup_insert_eq.
Qed.

Lemma stored_email_is_normalized_witness :
  let d := mkData "Ann" "a@b.com" None in
  Regex.matches emailPattern "A@B.COM" = true
  /\ Str.trim "A@B.COM" = "A@B.COM"
  /\ email d = Str.trim (Str.toLowerCase "A@B.COM")
  /\ rows (mkStore {[ 1 := d ]} 2 [QCreate d]) !! 1 = Some d.
Proof.
  intros d.
  apply (proj1 stored_email_is_normalized (mkStore ∅ 1 [])
           (Object [("name", JStr "Ann"); ("email", JStr "A@B.COM")])
           (JObj [("name", JStr "Ann"); ("email", JStr "A@B.COM")])
           POST Users "A@B.COM" (mkStore {[ 1 := d ]} 2 [QCreate d]) 201 (1, d));
    [reflexivity | reflexivity | reflexivity | vm_compute; reflexivity].
Defined.

(** The input [" A@B.COM "] is not accepted: the create request is answered
    400 "Valid email is required", the store stays empty, and so no
    response carries a user whose email is ["a@b.com"]. *)
Lemma padded_email_rejected :
  let db := mkStore ∅ 1 [] in
  let r := mkRequest POST Users
             (Object [("name", JStr "Ann"); ("email", JStr " A@B.COM ")]) in
  handle db r = (db, json 400 (errorBody "Valid email is required"))
  /\ ~ (exists db' code u,
          handle db r = (db', mkResponse code (Some (userJson u)))
          /\ email u.2 = "a@b.com").
Proof.
  split; [reflexivity|].
  intros (db' & code & u & H & _).
  change (handle _ _) with
    (mkStore ∅ 1 [], json 400 (errorBody "Valid email is required")) in H.
  unfold json, errorBody, userJson in H. congruence.
Qed.

(** *** Listing *)

#[local] Instance byId_transitive : Transitive byId.
Proof. intros a b c. unfold byId. lia. Qed.

#[local] Instance byId_total : Total byId.
Proof. intros a b. unfold byId. lia. Qed.

Lemma sorted_distinct_ascending (l : list User) :
  StronglySorted byId l -> NoDup l.*1 -> Spec.ascending l.
Proof.
  unfold Spec.ascending. induction 1 as [|u l Hl IH Hu]; cbn; intros Hnd.
  - constructor.
  - apply NoDup_cons in Hnd as [Hin Hnd].
    constructor; [by apply IH|].
    apply Forall_forall. intros v Hv.
    pose proof (proj1 (Forall_forall _ _) Hu v Hv) as Hle. unfold byId in Hle.
    assert (u.1 <> v.1); [|lia].
    intros E. apply Hin. rewrite E. by apply list_elem_of_fmap_2.
Qed.

Lemma findMany_sorted db :
  let us := merge_sort byId (map_to_list (rows db)) in
  Spec.ascending us /\ (forall i d, (i, d) ∈ us <-> rows db !! i = Some d).
Proof.
  intros us. split.
  - apply sorted_distinct_ascending.
    + apply StronglySorted_merge_sort; apply _.
    + unfold us. rewrite merge_sort_Permutation. apply NoDup_fst_map_to_list.
  - intros i d. unfold us. rewrite merge_sort_Permutation.
    apply elem_of_map_to_list.
Qed.

(** C8. In every store state, GET /users answers 200 with the array of the
    persisted users, each exactly once, in strictly ascending order of id;
    the array is empty when no user exists. The state records no insertion
    or update order, so the order of the answer cannot depend on one. *)
Theorem list_is_sorted_by_id db raw b :
  Spec.parsed raw = Some b ->
  exists us,
    handle db (mkRequest GET Users raw)
    = (send QFindMany db, json 200 (JArr (map userJson us)))
    /\ Spec.ascending us
    /\ (forall i d, (i, d) ∈ us <-> rows db !! i = Some d)
    /\ (rows db = ∅ -> us = []).
Proof.
  intros Hb. exists (merge_sort byId (map_to_list (rows db))).
  destruct (findMany_sorted db) as [Hs Hm].
  split; [|split; [done|split; [done|]]].
  - by rewrite (handle_list _ _ _ Hb).
  - intros ->. by rewrite map_to_list_empty.
Qed.

(** *** Integers as Numbers *)

Lemma round53_small m : 0 <= m < 2 ^ 53 -> Num.round53 m = m.
Proof.
  intros [H0 H]. unfold Num.round53.
  destruct (Z.leb_spec (Z.log2 m - 52) 0) as [|He]; [done|].
  exfalso. destruct (Z.eq_dec m 0) as [->|]; [by cbn in He|].
  assert (Z.log2 m < 53) by (apply Z.log2_lt_pow2; lia). lia.
Qed.

Lemma round53_nonneg m : 0 <= m -> 0 <= Num.round53 m.
Proof.
  intros H. unfold Num.round53.
  destruct (Z.leb_spec (Z.log2 m - 52) 0) as [|He]; [done|].
  apply Z.shiftl_nonneg.
  assert (0 <= Z.shiftr m (Z.log2 m - 52)) by by apply Z.shiftr_nonneg.
  destruct (_ || _); lia.
Qed.

Lemma round53_pos m : 1 <= m -> 1 <= Num.round53 m.
Proof.
  intros H. unfold Num.round53.
  destruct (Z.leb_spec (Z.log2 m - 52) 0) as [|He]; [done|].
  set (e := Z.log2 m - 52) in *.
  assert (2 ^ e <= m) as Hpow.
  { destruct (Z.log2_spec m) as [Hl _]; [lia|].
    etrans; [|exact Hl]. apply Z.pow_le_mono_r; lia. }
  assert (0 < 2 ^ e) as Hpos by (apply Z.pow_pos_nonneg; lia).
  assert (1 <= Z.shiftr m e) as Hq.
  { rewrite Z.shiftr_div_pow2 by lia. apply Z.div_le_lower_bound; lia. }
  rewrite Z.shiftl_mul_pow2 by lia.
  destruct (_ || _); nia.
Qed.

(** Below 2^53 the Number of an integer is the integer itself. *)
Lemma toNumber_exact n : Z.abs n < 2 ^ 53 -> Num.toNumber n = Num.ofZ n.
Proof.
  intros H. unfold Num.toNumber. rewrite round53_small by lia.
  set (big := 2 ^ 1024).
  assert (2 ^ 53 <= big) as Hbig by (by vm_compute).
  destruct (Z.leb_spec big (Z.abs n)); [lia|].
  f_equal. by destruct n.
Qed.

Lemma toNumber_ge1 n :
  1 <= n -> Num.isNaN (Num.toNumber n) = false /\ Num.ltZ (Num.toNumber n) 1 = false.
Proof.
  intros H. unfold Num.toNumber. set (big := 2 ^ 1024).
  destruct (big <=? _).
  - split; [done|]. cbn. lia.
  - split; [done|]. rewrite ofZ_ltZ, Z.sgn_pos, Z.abs_eq by lia.
    pose proof (round53_pos n H). lia.
Qed.

Lemma toNumber_lt1 n : n < 1 -> Num.ltZ (Num.toNumber n) 1 = true.
Proof.
  intros H. destruct (Z.eq_dec n 0) as [->|]; [done|].
  unfold Num.toNumber. set (big := 2 ^ 1024).
  destruct (big <=? _).
  - cbn. lia.
  - rewrite ofZ_ltZ, Z.sgn_neg by lia.
    pose proof (round53_nonneg (Z.abs n)). lia.
Qed.

(** [validateId] in terms of the integer that the segment is parsed to. *)
Lemma validateId_spec q db seg :
  params_id q = Segment seg ->
  validateId q db
  = match Num.parseIntMath seg with
    | Some n =>
        if 1 <=? n then Next (set_params_id q (Parsed (Num.toNumber n))) db
        else Respond (json 400 (errorBody "Invalid ID parameter")) db
    | None => Respond (json 400 (errorBody "Invalid ID parameter")) db
    end.
Proof.
  intros Hq. unfold validateId. rewrite Hq. cbn [parseParam].
  unfold Num.parseInt. destruct (Num.parseIntMath seg) as [n|]; [|done].
  destruct (Z.leb_spec 1 n) as [Hn|Hn].
  - by destruct (toNumber_ge1 n Hn) as [-> ->].
  - by rewrite (toNumber_lt1 n Hn), orb_true_r.
Qed.

(** *** Segments that start with decimal digits *)

Lemma decimal_digit_range c :
  Spec.isDecimalDigit c = true <-> 48 <= Str.code c <= 57.
Proof. unfold Spec.isDecimalDigit. rewrite andb_true_iff, !Z.leb_le. done. Qed.

Lemma radixDigit_decimal c :
  Num.radixDigit 10 c
  = if Spec.isDecimalDigit c then Some (Str.code c - 48) else None.
Proof.
  unfold Num.radixDigit, Num.digitValue, Spec.isDecimalDigit.
  repeat (match goal with
          | |- context [Z.leb ?a ?b] => destruct (Z.leb_spec a b)
          | |- context [Z.ltb ?a ?b] => destruct (Z.ltb_spec a b)
          end; cbn [andb]); done || lia.
Qed.

Lemma mathInt_decimal s : forall acc,
  Num.mathInt 10 acc s
  = fold_left (fun a c => 10 * a + (Str.code c - 48))
      (list_ascii_of_string (Spec.decimalPrefix s)) acc.
Proof.
  induction s as [|c s IH]; intros acc; [done|]. cbn.
  rewrite radixDigit_decimal. destruct (Spec.isDecimalDigit c); [|done].
  cbn. rewrite IH. f_equal. lia.
Qed.

(** A segment that starts with a decimal digit, its digits denoting an
    integer of at least 1, is parsed to that integer. *)
Lemma parseIntMath_decimal seg :
  Spec.decimalPrefix seg <> "" ->
  1 <= Spec.decimalValue (Spec.decimalPrefix seg) ->
  Num.parseIntMath seg = Some (Spec.decimalValue (Spec.decimalPrefix seg)).
Proof.
  destruct seg as [|c s]; [done|]. cbn [Spec.decimalPrefix].
  destruct (Spec.isDecimalDigit c) eqn:Hc; [|done]. intros _ Hv.
  pose proof (proj1 (decimal_digit_range c) Hc) as Hr.
  unfold Num.parseIntMath.
  assert (Str.trimStart (String c s) = String c s) as ->.
  { cbn. unfold Str.isWhiteSpace.
    destruct (Z.leb_spec 9 (Str.code c)), (Z.leb_spec (Str.code c) 13),
      (Z.eqb_spec (Str.code c) 32), (Z.eqb_spec (Str.code c) 160); cbn; done || lia. }
  assert (Str.startsWith "-" (String c s) = false) as ->.
  { cbn [Str.startsWith].
    destruct (Ascii.eqb_spec "-" c) as [<-|]; [by vm_compute in Hc|done]. }
  assert (Str.startsWith "+" (String c s) = false) as ->.
  { cbn [Str.startsWith].
    destruct (Ascii.eqb_spec "+" c) as [<-|]; [by vm_compute in Hc|done]. }
  cbn [orb].
  assert (Str.startsWith "0x" (String c s) || Str.startsWith "0X" (String c s) = false)
    as ->.
  { cbn [Str.startsWith].
    destruct (Ascii.eqb_spec "0" c) as [<-|]; [|done].
    destruct s as [|c' s]; [done|].
    destruct (Ascii.eqb_spec "x" c') as [<-|]; [by vm_compute in Hv|].
    destruct (Ascii.eqb_spec "X" c') as [<-|]; [by vm_compute in Hv|done]. }
  unfold Num.startsWithDigit. rewrite radixDigit_decimal, Hc.
  rewrite mathInt_decimal. cbn [Spec.decimalPrefix]. rewrite Hc.
  f_equal. unfold Spec.decimalValue. lia.
Qed.

(** *** The handlers see the parameter only as a number *)

Lemma handle_head db raw b seg :
  Spec.parsed raw = Some b ->
  let r := mkRequest HEAD (UsersId seg) raw in
  handle db r
  = resume (drop 6 app)
      (runRoute [validateId; getUser] (Spec.routed r (Segment seg) b) db).
Proof. intros Hb. unfold handle, app. destruct raw; inversion Hb; reflexivity. Qed.

Ltac finish_handler :=
  rewrite ?runRoute_one;
  unfold getUser, replaceUser, patchUser, deleteUser;
  cbn [params_id body set_params_id set_body Spec.routed paramValue];
  repeat (case_match; simplify_eq); reflexivity.

Ltac same_outcome :=
  first
    [ finish_handler
    | rewrite !runRoute_cons; unfold validateUserInput;
      cbn [params_id body set_params_id set_body Spec.routed];
      repeat (case_match; simplify_eq); try reflexivity; finish_handler ].

(** Two segments that are parsed to the same Number are served alike. *)
Lemma handle_by_parsed_id db m raw seg seg' :
  Num.parseInt seg = Num.parseInt seg' ->
  handle db (mkRequest m (UsersId seg) raw)
  = handle db (mkRequest m (UsersId seg') raw).
Proof.
  intros H. destruct (Spec.parsed raw) as [b|] eqn:Hb.
  - destruct m.
    + rewrite !(handle_get _ _ _ Hb). rewrite !runRoute_cons.
      unfold validateId. cbn [params_id Spec.routed parseParam]. rewrite H.
      destruct (_ || _); [reflexivity|]. same_outcome.
    + rewrite !(handle_head _ _ _ _ Hb). rewrite !runRoute_cons.
      unfold validateId. cbn [params_id Spec.routed parseParam]. rewrite H.
      destruct (_ || _); [reflexivity|]. same_outcome.
    + destruct raw; inversion Hb; reflexivity.
    + rewrite !(handle_put _ _ _ Hb). rewrite !runRoute_cons.
      unfold validateId. cbn [params_id Spec.routed parseParam]. rewrite H.
      destruct (_ || _); [reflexivity|]. same_outcome.
    + rewrite !(handle_patch _ _ _ Hb). rewrite !runRoute_cons.
      unfold validateId. cbn [params_id Spec.routed parseParam]. rewrite H.
      destruct (_ || _); [reflexivity|]. same_outcome.
    + rewrite !(handle_delete _ _ _ Hb). rewrite !runRoute_cons.
      unfold validateId. cbn [params_id Spec.routed parseParam]. rewrite H.
      destruct (_ || _); [reflexivity|]. same_outcome.
    + destruct raw; inversion Hb; reflexivity.
  - destruct raw; try discriminate. destruct m; reflexivity.
Qed.

(** *** Rejected and accepted identifiers *)

Lemma invalid_id_rejected db m seg raw b :
  Spec.parsed raw = Some b ->
  Spec.takesId m = true ->
  (forall n, Num.parseIntMath seg = Some n -> n < 1) ->
  handle db (mkRequest m (UsersId seg) raw) = (db, Spec.invalidId).
Proof.
  intros Hb Hm Hn.
  assert (forall q, params_id q = Segment seg ->
            validateId q db = Respond Spec.invalidId db) as Hv.
  { intros q Hq. rewrite (validateId_spec _ _ seg Hq).
    destruct (Num.parseIntMath seg) as [n|]; [|done].
    specialize (Hn n eq_refl). destruct (Z.leb_spec 1 n); [lia|done]. }
  destruct m; try discriminate.
  - rewrite (handle_get _ _ _ Hb), runRoute_cons, Hv by done. apply resume_respond.
  - rewrite (handle_put _ _ _ Hb), runRoute_cons, Hv by done. apply resume_respond.
  - rewrite (handle_patch _ _ _ Hb), runRoute_cons, Hv by done. apply resume_respond.
  - rewrite (handle_delete _ _ _ Hb), runRoute_cons, Hv by done. apply resume_respond.
Qed.

Lemma valid_id_accepted q db seg n :
  params_id q = Segment seg -> Num.parseIntMath seg = Some n -> 1 <= n ->
  validateId q db = Next (set_params_id q (Parsed (Num.toNumber n))) db.
Proof.
  intros Hq Hp Hn. rewrite (validateId_spec _ _ seg Hq), Hp.
  destruct (Z.leb_spec 1 n); [done|lia].
Qed.

(** C6. A PATCH request with a valid id (a segment parsed to an integer of
    at least 1) whose body supplies none of [name], [email] and [age] is
    answered 400 "No valid update data provided"; the store is left as it
    was and no query is sent to it. *)
Theorem patch_without_fields db seg n raw b :
  Spec.parsed raw = Some b ->
  Num.parseIntMath seg = Some n -> 1 <= n ->
  Spec.supplied b "name" = false ->
  Spec.supplied b "email" = false ->
  Spec.supplied b "age" = false ->
  handle db (mkRequest PATCH (UsersId seg) raw)
  = (db, json 400 (errorBody "No valid update data provided")).
Proof.
  intros Hb Hp Hid Hn He Ha.
  rewrite (handle_patch _ _ _ Hb). cbn [runRoute].
  rewrite (valid_id_accepted _ _ seg n) by done.
  unfold patchUser, patchFields. cbn [body set_params_id Spec.routed destructure].
  unfold fieldsOf.
  rewrite (not_supplied _ _ Hn), (not_supplied _ _ He), (not_supplied _ _ Ha).
  reflexivity.
Qed.

Ltac other_response :=
  rewrite ?runRoute_one;
  unfold getUser, replaceUser, patchUser, patchFields, deleteUser;
  cbn [params_id body set_params_id set_body Spec.routed paramValue destructure];
  repeat (case_match; simplify_eq);
  rewrite ?resume_respond, ?resume_error by lia; discriminate.

(** A request whose id is accepted is not answered "Invalid ID parameter". *)
Lemma valid_id_not_rejected db m seg raw b n db' :
  Spec.parsed raw = Some b ->
  Spec.takesId m = true ->
  Num.parseIntMath seg = Some n -> 1 <= n ->
  handle db (mkRequest m (UsersId seg) raw) <> (db', Spec.invalidId).
Proof.
  intros Hb Hm Hp Hn.
  destruct m; try discriminate.
  - rewrite (handle_get _ _ _ Hb), runRoute_cons.
    rewrite (valid_id_accepted _ _ seg n) by done. other_response.
  - rewrite (handle_put _ _ _ Hb), runRoute_cons.
    rewrite (valid_id_accepted _ _ seg n) by done.
    rewrite runRoute_cons. unfold validateUserInput.
    cbn [params_id body set_params_id set_body Spec.routed].
    repeat (case_match; simplify_eq);
      rewrite ?resume_respond, ?resume_error by lia; try discriminate.
    other_response.
  - rewrite (handle_patch _ _ _ Hb), runRoute_cons.
    rewrite (valid_id_accepted _ _ seg n) by done. other_response.
  - rewrite (handle_delete _ _ _ Hb), runRoute_cons.
    rewrite (valid_id_accepted _ _ seg n) by done. other_response.
Qed.

(** C4. On the routes that take an id (GET, PUT, PATCH and DELETE
    /users/:id), a request whose body the parser accepts is answered 400
    "Invalid ID parameter", with the store untouched, exactly when the path
    segment is not parsed to an integer of at least 1; when it is parsed to
    such an integer [n], [validateId] stores the Number of [n] over the
    parameter (the integer itself below 2^53) and passes the request on.
    The segments "0", "-5" and "abc" are rejected. *)
Theorem id_parameter_validated :
  (forall db m seg raw b,
     Spec.parsed raw = Some b -> Spec.takesId m = true ->
     (handle db (mkRequest m (UsersId seg) raw) = (db, Spec.invalidId)
      <-> ~ exists n, Num.parseIntMath seg = Some n /\ 1 <= n))
  /\ (forall q db seg n,
        params_id q = Segment seg -> Num.parseIntMath seg = Some n -> 1 <= n ->
        validateId q db = Next (set_params_id q (Parsed (Num.toNumber n))) db
        /\ (n < 2 ^ 53 -> Num.toNumber n = Num.ofZ n))
  /\ (forall db m raw b seg,
        Spec.parsed raw = Some b -> Spec.takesId m = true ->
        In seg ["0"; "-5"; "abc"] ->
        handle db (mkRequest m (UsersId seg) raw) = (db, Spec.invalidId)).
Proof.
  split; [|split].
  - intros db m seg raw b Hb Hm. split.
    + intros H (n & Hp & Hn).
      by apply (valid_id_not_rejected db m seg raw b n db Hb Hm Hp Hn).
    + intros H. apply (invalid_id_rejected _ _ _ _ b); [done..|].
      intros n Hp. destruct (Z.lt_ge_cases n 1); [done|].
      destruct H. eauto.
  - intros q db seg n Hq Hp Hn. split; [by apply (valid_id_accepted q db seg)|].
    intros Hlt. apply toNumber_exact. lia.
  - intros db m raw b seg Hb Hm Hin.
    apply (invalid_id_rejected _ _ _ _ b); [done..|].
    intros n Hp. cbn in Hin.
    destruct Hin as [<-|[<-|[<-|[]]]]; vm_compute in Hp; simplify_eq; lia.
Qed.

Lemma id_parameter_validated_witness :
  handle (mkStore ∅ 1 []) (mkRequest GET (UsersId "abc") NoJson)
  = (mkStore ∅ 1 [], Spec.invalidId).
Proof.
  apply (proj2 (proj1 id_parameter_validated (mkStore ∅ 1 []) GET "abc" NoJson
                  (JObj []) eq_refl eq_refl)).
  intros (n & Hp & _). vm_compute in Hp. discriminate.
Defined.

(** C10. A path segment that begins with decimal digits denoting an
    integer [n] of at least 1 is accepted whatever follows the digits:
    [validateId] stores the Number of [n] over the parameter (the integer
    itself below 2^53), and every request on the segment is served as the
    same request on its digits alone. So /users/12abc is served as /users/12 and /users/3.9 as
    /users/3. *)
Theorem digit_prefix_is_the_id :
  (forall seg n,
     Spec.decimalPrefix seg <> "" ->
     Spec.decimalValue (Spec.decimalPrefix seg) = n ->
     1 <= n ->
     (forall q db,
        params_id q = Segment seg ->
        validateId q db = Next (set_params_id q (Parsed (Num.toNumber n))) db)
     /\ (n < 2 ^ 53 -> Num.toNumber n = Num.ofZ n)
     /\ (forall db m raw,
           handle db (mkRequest m (UsersId seg) raw)
           = handle db (mkRequest m (UsersId (Spec.decimalPrefix seg)) raw)))
  /\ (forall db m raw,
        Num.parseInt "12abc" = Num.ofZ 12
        /\ handle db (mkRequest m (UsersId "12abc") raw)
           = handle db (mkRequest m (UsersId "12") raw))
  /\ (forall db m raw,
        Num.parseInt "3.9" = Num.ofZ 3
        /\ handle db (mkRequest m (UsersId "3.9") raw)
           = handle db (mkRequest m (UsersId "3") raw)).
Proof.
  split; [|split].
  - intros seg n Hne <- Hn.
    pose proof (parseIntMath_decimal seg Hne Hn) as Hp. split; [|split].
    + intros q db Hq. by apply (valid_id_accepted q db seg).
    + intros Hlt. apply toNumber_exact. lia.
    + intros db m raw. apply handle_by_parsed_id. unfold Num.parseInt.
      rewrite Hp.
      assert (Spec.decimalPrefix (Spec.decimalPrefix seg) = Spec.decimalPrefix seg)
        as Hidem.
      { clear. induction seg as [|c s IH]; [done|]. cbn.
        destruct (Spec.isDecimalDigit c) eqn:Hc; [|done]. cbn. by rewrite Hc, IH. }
      rewrite (parseIntMath_decimal (Spec.decimalPrefix seg)); rewrite Hidem; done.
  - intros db m raw. split; [by vm_compute|]. by apply handle_by_parsed_id.
  - intros db m raw. split; [by vm_compute|]. by apply handle_by_parsed_id.
Qed.

Lemma digit_prefix_is_the_id_witness :
  handle (mkStore {[ 12 := mkData "Ann" "ann@x.org" None ]} 13 [])
    (mkRequest GET (UsersId "12abc") NoJson)
  = handle (mkStore {[ 12 := mkData "Ann" "ann@x.org" None ]} 13 [])
      (mkRequest GET (UsersId (Spec.decimalPrefix "12abc")) NoJson).
Proof.
  apply (proj2 (proj2 (proj1 digit_prefix_is_the_id "12abc" 12
                         ltac:(vm_compute; discriminate) eq_refl ltac:(lia)))).
Defined.

(** C1. A body that the JSON parser refuses is answered by the final error
    handler: POST /users with such a body gets 500 "Something went wrong!"
    with the parser's message, not 400 "Invalid JSON". The handler written
    for the parse error is registered before the parser, where an error
    raised by the parser never arrives. *)
Theorem refused_body_answers_500 db msg :
  handle db (mkRequest POST Users (Refused msg))
  = (db, json 500 (JObj [("error", JStr "Something went wrong!");
                         ("message", JStr msg)])).
Proof. reflexivity. Qed.

(** *** The theorems at concrete requests *)

Lemma delete_then_not_found_witness :
  let d := mkData "Bob" "bob@x.org" None in
  let db := mkStore {[ 2 := d ]} 3 [] in
  let r := mkRequest DELETE (UsersId "2") NoJson in
  exists db1,
    handle db r
    = (db1, json 200 (JObj
         [("message", JStr ("User " ++ name d ++ " deleted successfully"));
          ("user", userJson (2, d))]))
    /\ rows db1 = base.delete 2 (rows db)
    /\ rows db1 !! 2 = None
    /\ exists db2,
         handle db1 r = (db2, json 404 (errorBody "User not found"))
         /\ rows db2 = rows db1.
Proof.
  intros d db r.
  apply (delete_then_not_found db "2" 2 NoJson (JObj []) d).
  - reflexivity.
  - split; [reflexivity | lia].
  - vm_compute. reflexivity.
Defined.

Lemma second_create_conflicts_witness :
  let d := mkData "Ann" "a@b.com" None in
  let db1 := mkStore {[ 1 := d ]} 2 [QCreate d] in
  exists db2,
    handle db1 (mkRequest POST Users
                  (Object [("name", JStr "Bob"); ("email", JStr "a@b.com")]))
    = (db2, json 409 (errorBody "Email already exists"))
    /\ rows db2 = rows db1.
Proof.
  intros d db1.
  apply (second_create_conflicts (mkStore ∅ 1 [])
           (Object [("name", JStr "Ann"); ("email", JStr "A@B.COM")])
           (JObj [("name", JStr "Ann"); ("email", JStr "A@B.COM")])
           (Object [("name", JStr "Bob"); ("email", JStr "a@b.com")])
           (JObj [("name", JStr "Bob"); ("email", JStr "a@b.com")])
           db1 (json 201 (userJson (1, d)))).
  - reflexivity.
  - reflexivity.
  - vm_compute. reflexivity.
  - reflexivity.
  - vm_compute. reflexivity.
  - vm_compute. reflexivity.
  - reflexivity.
Defined.

(** C7, as the claim states it, fails where the second request has an age
    beyond the range of the column: the age passes the validation, which
    sets no upper bound, the client refuses it before the unique
    constraint is tried, and the answer is 500, not 409. No user is
    inserted. *)
Lemma oversized_age_is_no_conflict :
  let db := mkStore ∅ 1 [] in
  let first :=
    handle db (mkRequest POST Users
                 (Object [("name", JStr "Ann"); ("email", JStr "a@b.com")])) in
  let second :=
    handle first.1 (mkRequest POST Users
                      (Object [("name", JStr "Bob"); ("email", JStr "a@b.com");
                               ("age", JNum (Num.ofZ (10 ^ 21)))])) in
  status first.2 = 201
  /\ status second.2 = 500
  /\ second.2 <> json 409 (errorBody "Email already exists")
  /\ rows second.1 = rows first.1.
Proof.
  intros db first second.
  repeat apply conj; try (vm_compute; reflexivity).
  intros E. apply (f_equal status) in E. vm_compute in E. discriminate.
Qed.

Lemma patch_without_fields_witness :
  handle (mkStore ∅ 1 []) (mkRequest PATCH (UsersId "1") (Object []))
  = (mkStore ∅ 1 [], json 400 (errorBody "No valid update data provided")).
Proof.
  apply (patch_without_fields (mkStore ∅ 1 []) "1" 1 (Object []) (JObj [])).
  - reflexivity.
  - reflexivity.
  - lia.
  - reflexivity.
  - reflexivity.
  - reflexivity.
Defined.

Lemma list_is_sorted_by_id_witness :
  let db := mkStore {[ 2 := mkData "Bob" "bob@x.org" None;
                       1 := mkData "Ann" "a@b.com" (Some 30) ]} 3 [] in
  exists us,
    handle db (mkRequest GET Users NoJson)
    = (send QFindMany db, json 200 (JArr (map userJson us)))
    /\ Spec.ascending us
    /\ (forall i d, (i, d) ∈ us <-> rows db !! i = Some d)
    /\ (rows db = ∅ -> us = []).
Proof.
  intros db. apply (list_is_sorted_by_id db NoJson (JObj [])). reflexivity.
Defined.

(* ===================================================================== *)
(** ** The store invariant *)
(* ===================================================================== *)


Lemma wellFormed_send q db : Spec.wellFormed db -> Spec.wellFormed (send q db).
Proof. done. Qed.







(* ===================================================================== *)
(** ** Further properties of the handlers *)
(* ===================================================================== *)

(** *** Reading *)

(** X1. GET /users/:id with a valid id, inside the range of the id
    column, answers 200 with the user of that id, or 404 "User not found"
    when there is none; one query is sent and no row changes. *)
Theorem get_user_by_id db seg i raw b :
  Spec.parsed raw = Some b ->
  Spec.validId seg i ->
  i < 2 ^ 63 ->
  handle db (mkRequest GET (UsersId seg) raw)
  = (send (QFindUnique i) db,
     match rows db !! i with
     | Some d => json 200 (userJson (i, d))
     | None => json 404 (errorBody "User not found")
     end).
Proof.
  intros Hb Hid _. rewrite (handle_get _ _ _ Hb), runRoute_cons.
  rewrite (validateId_valid seg i) by done. rewrite runRoute_one.
  unfold getUser, findUniqueOrThrow. cbn [params_id set_params_id paramValue].
  rewrite idArg_ofZ. by destruct (rows db !! i).
Qed.

Lemma get_user_by_id_witness :
  let d := mkData "Ann" "a@b.com" None in
  let db := mkStore {[ 7 := d ]} 8 [] in
  handle db (mkRequest GET (UsersId "7") NoJson)
  = (send (QFindUnique 7) db,
     match rows db !! 7 with
     | Some d => json 200 (userJson (7, d))
     | None => json 404 (errorBody "User not found")
     end).
Proof.
  intros d db.
  apply (get_user_by_id db "7" 7 NoJson (JObj []));
    [reflexivity | split; [reflexivity | lia] | lia].
Defined.

(** X2. A request for which no route is registered (any other path, or a
    method that the path does not serve) is answered 404 "Route not
    found" and leaves the store as it was. *)
Theorem unmatched_route_not_found db m t raw b :
  Spec.parsed raw = Some b ->
  m <> OPTIONS ->
  Spec.hasRoute m t = false ->
  handle db (mkRequest m t raw) = (db, json 404 (errorBody "Route not found")).
Proof.
  intros Hb Hm Hr.
  destruct m, t; try done; try (by vm_compute in Hr);
    destruct raw; try discriminate; reflexivity.
Qed.

Lemma unmatched_route_not_found_witness :
  handle (mkStore ∅ 1 []) (mkRequest DELETE Users NoJson)
  = (mkStore ∅ 1 [], json 404 (errorBody "Route not found")).
Proof.
  apply (unmatched_route_not_found (mkStore ∅ 1 []) DELETE Users NoJson (JObj []));
    [reflexivity | discriminate | reflexivity].
Defined.

(** X3. A preflight request is answered 204 by the first layer, whatever
    its path and body, and nothing else runs. *)
Theorem preflight_answered_first db t raw :
  handle db (mkRequest OPTIONS t raw) = (db, mkResponse 204 None).
Proof. reflexivity. Qed.

(** X4. A GET, HEAD or OPTIONS request never changes a row or the next id,
    whatever its path and body. *)
Theorem read_only_requests db r :
  Spec.readOnly (r_method r) = true ->
  rows (handle db r).1 = rows db /\ next_id (handle db r).1 = next_id db.
Proof.
  destruct r as [m t raw]. cbn [r_method]. intros Hm.
  destruct (Spec.parsed raw) as [b|] eqn:Hb.
  - assert (forall q, rows (resume (drop 6 app) (runRoute [validateId; getUser] q db)).1
                      = rows db
                      /\ next_id (resume (drop 6 app)
                                    (runRoute [validateId; getUser] q db)).1
                         = next_id db) as Hget.
    { intros q. rewrite runRoute_cons.
      destruct (validateId_outcome q db) as [->|[n ->]]; [done|].
      rewrite runRoute_one. unfold getUser, findUniqueOrThrow.
      destruct (idArg _); [|done]. by destruct (rows db !! _). }
    destruct m; try discriminate; destruct t as [|seg|].
    + by rewrite (handle_list _ _ _ Hb).
    + rewrite (handle_get _ _ _ Hb). apply Hget.
    + destruct raw; inversion Hb; done.
    + destruct raw; inversion Hb; done.
    + rewrite (handle_head _ _ _ _ Hb). apply Hget.
    + destruct raw; inversion Hb; done.
    + done.
    + done.
    + done.
  - destruct raw; try discriminate. destruct m; try discriminate; done.
Qed.

Lemma read_only_requests_witness :
  let db := mkStore {[ 7 := mkData "Ann" "a@b.com" None ]} 8 [] in
  let r := mkRequest GET (UsersId "7") NoJson in
  rows (handle db r).1 = rows db /\ next_id (handle db r).1 = next_id db.
Proof. intros db r. apply (read_only_requests db r). reflexivity. Defined.

(** *** Full-input validation, request by request *)

Lemma handle_full_input db m t raw b :
  Spec.parsed raw = Some b -> Spec.fullInput m t = true ->
  exists q h k,
    body q = Some b /\ (4 <= k <= 11)%nat /\ Spec.ends h
    /\ handle db (mkRequest m t raw)
       = resume (drop k app) (runRoute [validateUserInput; h] q db).
Proof.
  intros Hb Hf. destruct m, t as [|seg|]; try discriminate.
  - eexists _, createUser, 7%nat. rewrite (handle_post _ _ _ Hb).
    repeat split; [reflexivity | lia | lia | apply createUser_ends].
  - cbn in Hf. destruct (Num.parseIntMath seg) as [n|] eqn:Hp; [|done].
    apply Z.leb_le in Hf. eexists _, replaceUser, 8%nat.
    rewrite (handle_put _ _ _ Hb), runRoute_cons.
    rewrite (valid_id_accepted _ _ seg n) by done.
    repeat split; [reflexivity | lia | lia | apply replaceUser_ends].
Qed.

Lemma validName_truthy v :
  Spec.validName v = true -> negb (truthy v) || invalidName v = false.
Proof.
  destruct v as [[| | |s| |]|]; try done. cbn [Spec.validName].
  intros Hn%negb_true_iff. unfold invalidName.
  cbn [truthy isString typeof str negb orb]. rewrite <- empty_length, Hn.
  assert (s <> "") as Hs by (apply trim_nonempty; by intros E; rewrite E in Hn).
  apply String.eqb_neq in Hs. by rewrite Hs.
Qed.

Lemma invalidName_rejects v :
  Spec.validName v = false -> negb (truthy v) || invalidName v = true.
Proof.
  unfold invalidName.
  destruct v as [[| |x|s| |]|];
    cbn [Spec.validName isString typeof str negb orb truthy];
    intros Hn; rewrite ?orb_true_r; try done.
  apply negb_false_iff in Hn. rewrite <- empty_length, Hn. apply orb_true_r.
Qed.

Lemma validateUserInput_rejection q db b msg :
  body q = Some b ->
  Spec.rejection b = Some msg ->
  (Spec.validName (get b "name") = true ->
   Spec.raisesOnEmail (get b "email") = false) ->
  validateUserInput q db = Respond (json 400 (errorBody msg)) db.
Proof.
  intros Hq Hr Hraise. unfold validateUserInput. rewrite Hq. unfold fieldsOf.
  unfold Spec.rejection in Hr.
  destruct (Spec.validName (get b "name")) eqn:Hn; cbn [negb] in Hr.
  - rewrite (validName_truthy _ Hn). specialize (Hraise eq_refl).
    unfold Spec.raisesOnEmail in Hraise.
    destruct (Spec.validEmail (get b "email")) eqn:He; cbn [negb] in Hr.
    + destruct (get b "email") as [[| | |e| |]|]; try discriminate.
      cbn [Spec.validEmail] in He.
      pose proof (matches_nonempty _ He) as He'. apply String.eqb_neq in He'.
      cbn [truthy noMatch isString typeof str]. rewrite He', He. cbn [negb orElse].
      destruct (Spec.validAge (get b "age")) eqn:Ha; [done|].
      rewrite (validAge_fails _ Ha). by injection Hr as <-.
    + injection Hr as <-.
      destruct (truthy (get b "email")) eqn:Ht; cbn [negb orElse]; [|done].
      cbn [andb] in Hraise. apply negb_false_iff in Hraise.
      unfold noMatch. rewrite Hraise.
      destruct (get b "email") as [[| | |e| |]|]; try discriminate.
      cbn [Spec.validEmail str] in *. by rewrite He.
  - rewrite (invalidName_rejects _ Hn). by injection Hr as <-.
Qed.

Lemma validateUserInput_raises q db b :
  body q = Some b ->
  Spec.validName (get b "name") = true ->
  Spec.raisesOnEmail (get b "email") = true ->
  validateUserInput q db
  = NextError (typeError "email.match is not a function") q db.
Proof.
  intros Hq Hn Hr. unfold validateUserInput. rewrite Hq. unfold fieldsOf.
  rewrite (validName_truthy _ Hn).
  unfold Spec.raisesOnEmail in Hr. apply andb_prop in Hr as [Ht Hs].
  apply negb_true_iff in Hs. unfold noMatch. by rewrite Ht, Hs.
Qed.

(** X5. On POST /users and on PUT /users/:id with an accepted id, the
    checks run in the order name, email, age and the first one that fails
    decides the answer: 400 with that check's message, the store
    untouched. (An email that is truthy and not a string is the one input
    that raises instead; the hypothesis sets it aside.) *)
Theorem first_failed_check_answers db m t raw b msg :
  Spec.parsed raw = Some b ->
  Spec.fullInput m t = true ->
  Spec.rejection b = Some msg ->
  (Spec.validName (get b "name") = true ->
   Spec.raisesOnEmail (get b "email") = false) ->
  handle db (mkRequest m t raw) = (db, json 400 (errorBody msg)).
Proof.
  intros Hb Hf Hr Hraise.
  destruct (handle_full_input db m t raw b Hb Hf) as (q & h & k & Hq & Hk & _ & ->).
  rewrite runRoute_cons, (validateUserInput_rejection q db b msg) by done.
  apply resume_respond.
Qed.

Lemma first_failed_check_answers_witness :
  handle (mkStore ∅ 1 [])
    (mkRequest POST Users
       (Object [("name", JStr "A"); ("email", JStr "a@b.com");
                ("age", JNum (Num.ofZ (-1)))]))
  = (mkStore ∅ 1 [], json 400 (errorBody "Age must be a positive integer")).
Proof.
  apply (first_failed_check_answers (mkStore ∅ 1 []) POST Users
           (Object [("name", JStr "A"); ("email", JStr "a@b.com");
                    ("age", JNum (Num.ofZ (-1)))])
           (JObj [("name", JStr "A"); ("email", JStr "a@b.com");
                  ("age", JNum (Num.ofZ (-1)))]));
    reflexivity.
Defined.

(** X6. On the same requests, an email that is truthy and not a string
    (true, a non-zero number, an array, an object) after a valid name
    makes the validation raise: the answer is 500 "Something went wrong!"
    with the message "email.match is not a function", not 400, and the
    store is untouched. *)
Theorem non_string_email_answers_500 db m t raw b :
  Spec.parsed raw = Some b ->
  Spec.fullInput m t = true ->
  Spec.validName (get b "name") = true ->
  Spec.raisesOnEmail (get b "email") = true ->
  handle db (mkRequest m t raw)
  = (db, Spec.wentWrong "email.match is not a function").
Proof.
  intros Hb Hf Hn Hr.
  destruct (handle_full_input db m t raw b Hb Hf) as (q & h & k & Hq & Hk & _ & ->).
  rewrite runRoute_cons, (validateUserInput_raises q db b) by done.
  by rewrite resume_error.
Qed.

Lemma non_string_email_answers_500_witness :
  handle (mkStore ∅ 1 [])
    (mkRequest POST Users
       (Object [("name", JStr "A"); ("email", JNum (Num.ofZ 5))]))
  = (mkStore ∅ 1 [], Spec.wentWrong "email.match is not a function").
Proof.
  apply (non_string_email_answers_500 (mkStore ∅ 1 []) POST Users
           (Object [("name", JStr "A"); ("email", JNum (Num.ofZ 5))])
           (JObj [("name", JStr "A"); ("email", JNum (Num.ofZ 5))]));
    reflexivity.
Defined.

(** X7. On the same requests, an input that is not valid never reaches the
    store: the store, with the log of queries sent, is as before, and the
    answer is a 400 or a 500. *)
Theorem invalid_input_never_reaches_store db m t raw b :
  Spec.parsed raw = Some b ->
  Spec.fullInput m t = true ->
  Spec.validInput b = false ->
  (handle db (mkRequest m t raw)).1 = db
  /\ (status (handle db (mkRequest m t raw)).2 = 400
      \/ status (handle db (mkRequest m t raw)).2 = 500).
Proof.
  intros Hb Hf Hv.
  destruct (handle_full_input db m t raw b Hb Hf) as (q & h & k & Hq & Hk & _ & ->).
  rewrite runRoute_cons.
  destruct (validateUserInput_invalid q db b Hq Hv) as [[msg ->]|[e ->]].
  - rewrite resume_respond. auto.
  - rewrite resume_error by done. auto.
Qed.

Lemma invalid_input_never_reaches_store_witness :
  let db := mkStore ∅ 1 [] in
  let r := mkRequest POST Users (Object [("name", JStr ""); ("email", JStr "a@b.com")]) in
  (handle db r).1 = db
  /\ (status (handle db r).2 = 400 \/ status (handle db r).2 = 500).
Proof.
  intros db r.
  apply (invalid_input_never_reaches_store db POST Users
           (Object [("name", JStr ""); ("email", JStr "a@b.com")])
           (JObj [("name", JStr ""); ("email", JStr "a@b.com")]));
    reflexivity.
Defined.

(** *** Creating and updating *)

Lemma emailTaken_false e self db :
  Spec.emailFree e self db -> emailTaken e self (rows db) = false.
Proof.
  intros Hfree. apply not_true_iff_false. intros H.
  unfold emailTaken in H. apply existsb_exists in H as ([j d] & Hin & Hj).
  apply list_elem_of_In, elem_of_map_to_list in Hin.
  apply andb_prop in Hj as [He Hs]. cbn in He, Hs.
  apply String.eqb_eq in He. apply negb_true_iff, bool_decide_eq_false in Hs.
  by apply (Hfree j d Hin Hs).
Qed.

(** X8. POST /users with a valid input whose age (if it has one) fits
    the integer column of the store and whose normalized email no user
    holds answers 201 with the new user: the next id of the store, the
    name trimmed, the email lower-cased and trimmed, the age as given. The
    user is inserted under that id, the next id moves on by one, and in a
    well-formed store the id was not in use. *)
Theorem valid_create_succeeds db raw b :
  Spec.parsed raw = Some b ->
  Spec.validInput b = true ->
  Spec.storable b = true ->
  Spec.emailFree (Spec.normalEmail b) None db ->
  handle db (mkRequest POST Users raw)
  = (mkStore (<[next_id db := Spec.record b]> (rows db)) (next_id db + 1)
       (QCreate (Spec.record b) :: sent db),
     json 201 (userJson (next_id db, Spec.record b)))
  /\ (Spec.wellFormed db -> rows db !! next_id db = None).
Proof.
  intros Hb Hv Hf Hfree. split.
  - rewrite (handle_post _ _ _ Hb), runRoute_cons.
    rewrite (validateUserInput_valid _ _ b) by done.
    rewrite runRoute_one, (createUser_valid _ _ b) by done.
    cbn [email Spec.record]. by rewrite (emailTaken_false _ _ _ Hfree).
  - intros [Hid _]. destruct (rows db !! next_id db) as [d|] eqn:E; [|done].
    specialize (Hid _ _ E). lia.
Qed.

Lemma valid_create_succeeds_witness :
  let db := mkStore ∅ 1 [] in
  let b := JObj [("name", JStr " Ann "); ("email", JStr "A@B.COM")] in
  handle db (mkRequest POST Users
               (Object [("name", JStr " Ann "); ("email", JStr "A@B.COM")]))
  = (mkStore (<[next_id db := Spec.record b]> (rows db)) (next_id db + 1)
       (QCreate (Spec.record b) :: sent db),
     json 201 (userJson (next_id db, Spec.record b)))
  /\ (Spec.wellFormed db -> rows db !! next_id db = None).
Proof.
  intros db b.
  apply (valid_create_succeeds db
           (Object [("name", JStr " Ann "); ("email", JStr "A@B.COM")]) b);
    [reflexivity | reflexivity | reflexivity |].
  intros j d Hj. unfold db in Hj. cbn [rows] in Hj. by rewrite lookup_empty in Hj.
Defined.

Lemma validPatch_fields b :
  Spec.validPatch b = true ->
  patchFields (Some b) = Accepted (Spec.written b)
  /\ (keyCount (Spec.written b) =? 0)%nat = false.
Proof.
  unfold Spec.validPatch, Spec.written, Spec.supplied, Spec.normalName,
    Spec.normalEmail.
  intros [[[Hn He]%andb_prop Ha]%andb_prop Hs]%andb_prop.
  unfold patchFields, destructure, fieldsOf.
  destruct (get b "name") as [n|] eqn:En; cbn [isUndefined negb andb orb] in *.
  - rewrite <- (name_checks_agree n), (validName_truthy _ Hn).
    destruct (get b "email") as [e|] eqn:Ee; cbn [isUndefined negb andb orb] in *.
    + destruct e as [| | |e| |]; try discriminate. cbn [Spec.validEmail] in He.
      pose proof (matches_nonempty _ He) as He'. apply String.eqb_neq in He'.
      cbn [truthy noMatch isString typeof str].
      change patchEmailPattern with emailPattern. rewrite He', He.
      cbn [negb orElse]. rewrite (validAge_passes _ Ha). split; [done|].
      unfold keyCount. cbn. by destruct (get b "age").
    + rewrite (validAge_passes _ Ha). split; [done|].
      unfold keyCount. cbn. by destruct (get b "age").
  - destruct (get b "email") as [e|] eqn:Ee; cbn [isUndefined negb andb orb] in *.
    + destruct e as [| | |e| |]; try discriminate. cbn [Spec.validEmail] in He.
      pose proof (matches_nonempty _ He) as He'. apply String.eqb_neq in He'.
      cbn [truthy noMatch isString typeof str].
      change patchEmailPattern with emailPattern. rewrite He', He.
      cbn [negb orElse]. rewrite (validAge_passes _ Ha). split; [done|].
      unfold keyCount. cbn. by destruct (get b "age").
    + rewrite (validAge_passes _ Ha). split; [done|].
      unfold keyCount. cbn. by destruct (get b "age").
Qed.

Lemma validInput_written b :
  Spec.validInput b = true ->
  fieldsOf (Spec.normalized b) = Spec.written b /\ Spec.validAge (get b "age") = true.
Proof.
  intros Hv. destruct (validInput_object _ Hv) as [o ->].
  rewrite fieldsOf_normalized. unfold Spec.written, Spec.supplied.
  unfold Spec.validInput in Hv.
  apply andb_prop in Hv as [[Hn He]%andb_prop Ha]. split; [|done].
  destruct (get (JObj o) "name"); [|done]. by destruct (get (JObj o) "email").
Qed.

Lemma validUpdate_age m b :
  Spec.validUpdate m b = true -> Spec.validAge (get b "age") = true.
Proof.
  destruct m; try discriminate; cbn.
  - by intros [_ ?]%validInput_written.
  - unfold Spec.validPatch. by intros [[_ ?]%andb_prop _]%andb_prop.
Qed.

(** The client's answer to the [data] of a valid update. *)
Lemma update_written db i m b :
  Spec.validUpdate m b = true -> Spec.storable b = true ->
  update (Some (JNum (Num.ofZ i))) (Spec.written b) db
  = match rows db !! i with
    | None => (send (QUpdate i) db, inl (knownError "P2025"))
    | Some old =>
        if Spec.supplied b "email"
           && emailTaken (Spec.normalEmail b) (Some i) (rows db)
        then (send (QUpdate i) db, inl (knownError "P2002"))
        else (with_rows (<[i := Spec.updated b old]> (rows db))
                (send (QUpdate i) db),
              inr (i, Spec.updated b old))
    end.
Proof.
  intros Hv Hf. pose proof (validUpdate_age _ _ Hv) as Ha.
  unfold update, Spec.written, Spec.updated. rewrite idArg_ofZ.
  cbn [f_name f_email f_age]. rewrite (column_age _ Ha Hf).
  unfold Spec.supplied.
  destruct (rows db !! i) as [old|];
    destruct (get b "name"), (get b "email"), (get b "age");
    cbn [isUndefined negb andb column stringArg fmap option_fmap option_map default];
    unfold id; try done;
    by destruct (emailTaken _ _ _).
Qed.

(** A valid PUT or PATCH is the client's update of the written fields. *)
Lemma handle_update db m seg i raw b :
  Spec.parsed raw = Some b ->
  Spec.validId seg i ->
  Spec.validUpdate m b = true ->
  handle db (mkRequest m (UsersId seg) raw)
  = match update (Some (JNum (Num.ofZ i))) (Spec.written b) db with
    | (db', inr u) => (db', json 200 (userJson u))
    | (db', inl e) =>
        if hasCode e "P2025" then (db', notFound)
        else if hasCode e "P2002" then (db', emailExists)
        else (db', Spec.wentWrong (e_message e))
    end.
Proof.
  intros Hb Hid Hv. destruct m; try discriminate; cbn [Spec.validUpdate] in Hv.
  - rewrite (handle_put _ _ _ Hb), runRoute_cons.
    rewrite (validateId_valid seg i) by done.
    rewrite runRoute_cons, (validateUserInput_valid _ _ b) by done.
    rewrite runRoute_one. unfold replaceUser.
    cbn [body set_body set_params_id params_id paramValue destructure].
    rewrite (proj1 (validInput_written _ Hv)).
    destruct (update _ _ db) as [db' [e|u]]; [|done].
    destruct (hasCode e "P2025"); [done|]. destruct (hasCode e "P2002"); [done|].
    rewrite resume_error by lia. done.
  - rewrite (handle_patch _ _ _ Hb), runRoute_cons.
    rewrite (validateId_valid seg i) by done.
    rewrite runRoute_one. unfold patchUser.
    cbn [body set_body set_params_id params_id paramValue Spec.routed].
    destruct (validPatch_fields _ Hv) as [-> ->].
    destruct (update _ _ db) as [db' [e|u]]; [|done].
    destruct (hasCode e "P2025"); [done|]. destruct (hasCode e "P2002"); [done|].
    rewrite resume_error by lia. done.
Qed.

(** X9. A valid PUT or PATCH on an existing user, whose new age (if it
    supplies one) fits the integer column of the store and whose new email
    (if it supplies one) no other user holds, answers 200 with the updated
    user and stores it: every field that the body supplies takes its
    normalized value and every other field keeps what it had. *)
Theorem update_changes_supplied_fields db m seg i raw b old :
  Spec.parsed raw = Some b ->
  Spec.validId seg i ->
  Spec.validUpdate m b = true ->
  Spec.storable b = true ->
  rows db !! i = Some old ->
  (Spec.supplied b "email" = true ->
   Spec.emailFree (Spec.normalEmail b) (Some i) db) ->
  handle db (mkRequest m (UsersId seg) raw)
  = (with_rows (<[i := Spec.updated b old]> (rows db)) (send (QUpdate i) db),
     json 200 (userJson (i, Spec.updated b old))).
Proof.
  intros Hb Hid Hv Hf Hold Hfree.
  rewrite (handle_update db m seg i raw b Hb Hid Hv).
  rewrite (update_written db i m b Hv Hf), Hold.
  destruct (Spec.supplied b "email"); [|done].
  by rewrite (emailTaken_false _ _ _ (Hfree eq_refl)).
Qed.

Lemma update_changes_supplied_fields_witness :
  let old := mkData "Ann" "ann@x.org" (Some 30) in
  let db := mkStore {[ 1 := old ]} 2 [] in
  let b := JObj [("name", JStr " Bea "); ("age", JNum (Num.ofZ 31))] in
  handle db (mkRequest PATCH (UsersId "1")
               (Object [("name", JStr " Bea "); ("age", JNum (Num.ofZ 31))]))
  = (with_rows (<[1 := Spec.updated b old]> (rows db)) (send (QUpdate 1) db),
     json 200 (userJson (1, Spec.updated b old))).
Proof.
  intros old db b.
  apply (update_changes_supplied_fields db PATCH "1" 1
           (Object [("name", JStr " Bea "); ("age", JNum (Num.ofZ 31))]) b old);
    [reflexivity | split; [reflexivity | lia] | reflexivity | reflexivity
    | vm_compute; reflexivity | discriminate].
Defined.

(** X10. A valid PUT or PATCH whose new age (if it supplies one) fits the
    integer column of the store answers 404 "User not found" on an id,
    inside the range of the id column, that no user has, and 409 "Email
    already exists" when another user holds its new email. Neither changes
    a row. *)
Theorem update_failures_change_nothing db m seg i raw b :
  Spec.parsed raw = Some b ->
  Spec.validId seg i ->
  Spec.validUpdate m b = true ->
  Spec.storable b = true ->
  (rows db !! i = None -> i < 2 ^ 63 ->
   handle db (mkRequest m (UsersId seg) raw)
   = (send (QUpdate i) db, json 404 (errorBody "User not found")))
  /\ (forall old j other,
        rows db !! i = Some old ->
        Spec.supplied b "email" = true ->
        rows db !! j = Some other -> j <> i ->
        email other = Spec.normalEmail b ->
        handle db (mkRequest m (UsersId seg) raw)
        = (send (QUpdate i) db, json 409 (errorBody "Email already exists"))).
Proof.
  intros Hb Hid Hv Hf. rewrite (handle_update db m seg i raw b Hb Hid Hv).
  rewrite (update_written db i m b Hv Hf). split.
  - by intros -> _.
  - intros old j other -> -> Hj Hne He. cbn [andb].
    rewrite <- He, (emailTaken_row (rows db) j other (Some i)); [done..|].
    congruence.
Qed.

Lemma update_failures_change_nothing_witness :
  let db := mkStore {[ 1 := mkData "Ann" "ann@x.org" None ]} 2 [] in
  handle db (mkRequest PUT (UsersId "5")
               (Object [("name", JStr "Bea"); ("email", JStr "bea@x.org")]))
  = (send (QUpdate 5) db, json 404 (errorBody "User not found")).
Proof.
  intros db.
  destruct (update_failures_change_nothing db PUT "5" 5
              (Object [("name", JStr "Bea"); ("email", JStr "bea@x.org")])
              (JObj [("name", JStr "Bea"); ("email", JStr "bea@x.org")]))
    as [H _];
    [reflexivity | split; [reflexivity | lia] | reflexivity | reflexivity |].
  apply H; [vm_compute; reflexivity | lia].
Defined.

(** *** Requests in sequence *)



Lemma updated_twice b old : Spec.updated b (Spec.updated b old) = Spec.updated b old.
Proof.
  unfold Spec.updated. cbn [name email age].
  by destruct (Spec.supplied b "name"), (Spec.supplied b "email"),
    (Spec.supplied b "age").
Qed.

(** X12. An update is idempotent: the same valid PUT or PATCH, whose new
    age (if it supplies one) fits the integer column of the store, sent a
    second time gets the same answer and leaves every row as the first one
    left it. *)
Theorem update_is_idempotent db m seg i raw b old :
  Spec.parsed raw = Some b ->
  Spec.validId seg i ->
  Spec.validUpdate m b = true ->
  Spec.storable b = true ->
  rows db !! i = Some old ->
  (Spec.supplied b "email" = true ->
   Spec.emailFree (Spec.normalEmail b) (Some i) db) ->
  let r := mkRequest m (UsersId seg) raw in
  let db1 := (handle db r).1 in
  (handle db1 r).2 = (handle db r).2
  /\ (handle db r).2 = json 200 (userJson (i, Spec.updated b old))
  /\ rows (handle db1 r).1 = rows db1.
Proof.
  intros Hb Hid Hv Hf Hold Hfree r db1. subst db1 r.
  rewrite !(handle_update _ m seg i raw b Hb Hid Hv).
  rewrite (update_written db i m b Hv Hf), Hold.
  assert (Spec.supplied b "email"
          && emailTaken (Spec.normalEmail b) (Some i) (rows db) = false) as ->.
  { destruct (Spec.supplied b "email"); [|done].
    by rewrite (emailTaken_false _ _ _ (Hfree eq_refl)). }
  cbn [fst snd]. rewrite (update_written _ i m b Hv Hf).
  cbn [rows with_rows send]. rewrite lookup_insert_eq.
  assert (Spec.supplied b "email"
          && emailTaken (Spec.normalEmail b) (Some i)
               (<[i := Spec.updated b old]> (rows db)) = false) as ->.
  { destruct (Spec.supplied b "email"); [|done]. cbn [andb].
    pose proof (emailTaken_false (Spec.normalEmail b) (Some i)
                  (mkStore (<[i := Spec.updated b old]> (rows db)) 0 [])) as Ht.
    cbn [rows] in Ht. apply Ht.
    intros j d Hj Hs. cbn [rows] in Hj.
    rewrite lookup_insert_ne in Hj by congruence.
    by apply (Hfree eq_refl j d). }
  cbn [fst snd rows with_rows send].
  by rewrite updated_twice, insert_insert_eq.
Qed.

Lemma update_is_idempotent_witness :
  let old := mkData "Ann" "ann@x.org" (Some 30) in
  let db := mkStore {[ 1 := old ]} 2 [] in
  let b := JObj [("name", JStr "Bea"); ("email", JStr "BEA@x.org")] in
  let r := mkRequest PUT (UsersId "1")
             (Object [("name", JStr "Bea"); ("email", JStr "BEA@x.org")]) in
  let db1 := (handle db r).1 in
  (handle db1 r).2 = (handle db r).2
  /\ (handle db r).2 = json 200 (userJson (1, Spec.updated b old))
  /\ rows (handle db1 r).1 = rows db1.
Proof.
  intros old db b.
  apply (update_is_idempotent db PUT "1" 1
           (Object [("name", JStr "Bea"); ("email", JStr "BEA@x.org")]) b old);
    [reflexivity | split; [reflexivity | lia] | reflexivity | reflexivity
    | vm_compute; reflexivity |].
  intros _ j d Hj Hs. unfold db in Hj. cbn [rows] in Hj.
  apply lookup_singleton_Some in Hj as [<- _]. congruence.
Defined.

(** X13. What POST /users answers can be read back: after a create that
    succeeds (a valid input whose age, if it has one, fits the integer
    column of the store and whose email no user holds), GET /users/:id on
    the id of the new user answers 200 with the very body that the create
    answered with 201. *)
Theorem created_user_is_read_back db raw b seg raw' b' :
  Spec.parsed raw = Some b ->
  Spec.validInput b = true ->
  Spec.storable b = true ->
  Spec.emailFree (Spec.normalEmail b) None db ->
  Spec.validId seg (next_id db) ->
  Spec.parsed raw' = Some b' ->
  let created := handle db (mkRequest POST Users raw) in
  exists user,
    created.2 = json 201 user
    /\ (handle created.1 (mkRequest GET (UsersId seg) raw')).2 = json 200 user.
Proof.
  intros Hb Hv Hf Hfree Hid Hb' created. subst created.
  rewrite (handle_post _ _ _ Hb), runRoute_cons.
  rewrite (validateUserInput_valid _ _ b) by done.
  rewrite runRoute_one, (createUser_valid _ _ b) by done.
  cbn [email Spec.record]. rewrite (emailTaken_false _ _ _ Hfree).
  rewrite resume_respond. cbn [fst snd]. eexists. split; [reflexivity|].
  rewrite (handle_get _ _ _ Hb'), runRoute_cons.
  rewrite (validateId_valid seg (next_id db)) by done. rewrite runRoute_one.
  unfold getUser, findUniqueOrThrow. cbn [params_id set_params_id paramValue rows].
  by rewrite idArg_ofZ, lookup_insert_eq.
Qed.

Lemma created_user_is_read_back_witness :
  let db := mkStore ∅ 1 [] in
  let created :=
    handle db (mkRequest POST Users
                 (Object [("name", JStr "Ann"); ("email", JStr "a@b.com")])) in
  exists user,
    created.2 = json 201 user
    /\ (handle created.1 (mkRequest GET (UsersId "1") NoJson)).2 = json 200 user.
Proof.
  intros db.
  apply (created_user_is_read_back db
           (Object [("name", JStr "Ann"); ("email", JStr "a@b.com")])
           (JObj [("name", JStr "Ann"); ("email", JStr "a@b.com")])
           "1" NoJson (JObj []));
    [reflexivity | reflexivity | reflexivity |
    | split; [reflexivity | cbn; lia] | reflexivity].
  intros j d Hj. unfold db in Hj. cbn [rows] in Hj. by rewrite lookup_empty in Hj.
Defined.

(** X14. Deleting undoes creating: in a well-formed store, a create that
    succeeds (a valid input whose age, if it has one, fits the integer
    column of the store and whose email no user holds) followed by DELETE
    /users/:id on the new id leaves the table of users exactly as it was
    before the create, and the delete answers 200 with the record just
    created. *)
Theorem delete_undoes_create db raw b seg raw' b' :
  Spec.wellFormed db ->
  Spec.parsed raw = Some b ->
  Spec.validInput b = true ->
  Spec.storable b = true ->
  Spec.emailFree (Spec.normalEmail b) None db ->
  Spec.validId seg (next_id db) ->
  Spec.parsed raw' = Some b' ->
  let db1 := (handle db (mkRequest POST Users raw)).1 in
  let deleted := handle db1 (mkRequest DELETE (UsersId seg) raw') in
  rows deleted.1 = rows db
  /\ exists msg,
       deleted.2 = json 200 (JObj [("message", JStr msg);
                                   ("user", userJson (next_id db, Spec.record b))]).
Proof.
  intros [Hwf _] Hb Hv Hf Hfree Hid Hb' db1 deleted. subst deleted db1.
  rewrite (handle_post _ _ _ Hb), runRoute_cons.
  rewrite (validateUserInput_valid _ _ b) by done.
  rewrite runRoute_one, (createUser_valid _ _ b) by done.
  cbn [email Spec.record]. rewrite (emailTaken_false _ _ _ Hfree).
  rewrite resume_respond. cbn [fst].
  rewrite (handle_delete _ _ _ Hb'), runRoute_cons.
  rewrite (validateId_valid seg (next_id db)) by done. rewrite runRoute_one.
  rewrite (deleteUser_existing _ _ (next_id db) (Spec.record b));
    [|done|cbn; apply lookup_insert_eq].
  rewrite resume_respond. cbn [fst snd rows with_rows send]. split; [|eauto].
  apply delete_insert_id.
  destruct (rows db !! next_id db) as [d|] eqn:E; [|done].
  specialize (Hwf _ _ E). lia.
Qed.

Lemma delete_undoes_create_witness :
  let db := mkStore {[ 1 := mkData "Ann" "a@b.com" None ]} 2 [] in
  let db1 := (handle db (mkRequest POST Users
                           (Object [("name", JStr "Bob"); ("email", JStr "b@b.com")]))).1 in
  let deleted := handle db1 (mkRequest DELETE (UsersId "2") NoJson) in
  rows deleted.1 = rows db
  /\ exists msg,
       deleted.2
       = json 200 (JObj [("message", JStr msg);
                         ("user", userJson (next_id db,
                            Spec.record (JObj [("name", JStr "Bob");
                                               ("email", JStr "b@b.com")])))]).
Proof.
  intros db.
  apply (delete_undoes_create db
           (Object [("name", JStr "Bob"); ("email", JStr "b@b.com")])
           (JObj [("name", JStr "Bob"); ("email", JStr "b@b.com")])
           "2" NoJson (JObj [])).
  - split; unfold db; cbn [rows next_id].
    + intros i d [<- _]%lookup_singleton_Some. lia.
    + intros i j d d' [<- _]%lookup_singleton_Some [<- _]%lookup_singleton_Some _.
      reflexivity.
  - reflexivity.
  - reflexivity.
  - reflexivity.
  - unfold db. intros j d Hj _. cbn [rows] in Hj.
    apply lookup_singleton_Some in Hj as [<- <-]. cbn. discriminate.
  - split; [reflexivity | cbn; lia].
  - reflexivity.
Defined.

(** *** The shape of every answer *)

Lemma runRoute_answers (P : response -> Prop) hs :
  Forall (fun h : middleware => forall q db r db', h q db = Respond r db' -> P r) hs ->
  forall q db r db', runRoute hs q db = Respond r db' -> P r.
Proof.
  induction 1 as [|h hs Hh _ IH]; intros q db r db'; [done|].
  rewrite runRoute_cons. destruct (h q db) as [r1 db1|q1 db1|e q1 db1] eqn:E.
  - intros [= <- <-]. by apply (Hh q db r1 db1).
  - apply IH.
  - done.
Qed.

Lemma dispatch_answers (P : response -> Prop) stack rest :
  Forall (Spec.answers P) stack ->
  (forall err q db, P (dispatch rest err q db).2) ->
  forall err q db, P (dispatch (stack ++ rest) err q db).2.
Proof.
  intros Hs Hrest. induction Hs as [|l stack Hl _ IH]; intros err q db; [apply Hrest|].
  change ((l :: stack) ++ rest)%list with (l :: (stack ++ rest))%list.
  cbn [dispatch].
  destruct (enter l err q db) as [[r db'|q' db'|e q' db']|] eqn:E; try apply IH.
  cbn [snd].
  destruct l as [f|f|m p hs], err as [e|]; cbn in E; try done.
  - injection E as E. by apply (Hl q db r db').
  - injection E as E. by apply (Hl e q db r db').
  - destruct (pathMatches _ _); [|done]. destruct (methodMatches _ _); [|done].
    injection E as E. by apply (runRoute_answers P hs Hl _ _ _ _ E).
Qed.

Ltac shaped :=
  solve
    [ left; split; reflexivity
    | right; left; split; [cbn; auto | eexists; reflexivity]
    | right; right; split; [cbn; auto | do 2 eexists; reflexivity] ].

(** X15. Every request other than a GET or a HEAD is answered, and its
    answer has one of three shapes: 204 without a body (a preflight), 200
    or 201 with a JSON body, or 400, 404, 409 or 500 with an object that
    starts with an [error] string. No other status is sent to it. (GET
    and HEAD are set aside: there Express may withhold the body or answer
    304.) *)
Theorem every_answer_is_well_shaped db r :
  r_method r <> GET -> r_method r <> HEAD -> Spec.wellShaped (handle db r).2.
Proof.
  intros _ _. unfold handle.
  change app with (firstn 10 app ++ [Use routeNotFound; UseError errorHandler])%list.
  apply dispatch_answers.
  - cbn [firstn app]. repeat (apply Forall_cons; split); try apply Forall_nil;
      cbn [Spec.answers];
      repeat (apply Forall_cons; split); try apply Forall_nil;
      try exact I; intros *.
    all: unfold cors, requestLogger, jsonErrorHandler, express_json, listUsers,
           findMany, validateId, getUser, validateUserInput, createUser,
           replaceUser, patchUser, patchFields, deleteUser.
    all: repeat case_match; simplify_eq; try done; intros [= <- <-]; shaped.
  - intros [e|] q' db'; cbn; shaped.
Qed.

Lemma every_answer_is_well_shaped_witness :
  Spec.wellShaped
    (handle (mkStore ∅ 1 [])
       (mkRequest POST Users (Refused "Unexpected token } in JSON"))).2.
Proof.
  apply (every_answer_is_well_shaped (mkStore ∅ 1 [])
           (mkRequest POST Users (Refused "Unexpected token } in JSON")));
    discriminate.
Defined.

(** *** What the address pattern accepts *)

Section RegexShapes.

Import Regex.

Lemma append_empty (s : string) : "" ++ s = s.
Proof. reflexivity. Qed.

Lemma append_cons c (s t : string) : String c s ++ t = String c (s ++ t).
Proof. reflexivity. Qed.

Lemma matches_Void s : matches Void s = false.
Proof. by induction s. Qed.

Lemma matches_Alt s : forall r1 r2,
  matches (Alt r1 r2) s = matches r1 s || matches r2 s.
Proof. induction s as [|c s IH]; intros r1 r2; [done|]. cbn. apply IH. Qed.

Lemma matches_Cat s : forall r1 r2,
  matches (Cat r1 r2) s = true
  <-> exists s1 s2 : string,
        s = s1 ++ s2 /\ matches r1 s1 = true /\ matches r2 s2 = true.
Proof.
  induction s as [|c s IH]; intros r1 r2.
  - cbn. rewrite andb_true_iff. split.
    + intros [H1 H2]. by exists "", "".
    + intros (s1 & s2 & Hs & H1 & H2).
      destruct s1, s2; rewrite ?append_empty, ?append_cons in Hs;
        try discriminate; done.
  - cbn [matches deriv]. rewrite matches_Alt, orb_true_iff, IH. split.
    + intros [(s1 & s2 & -> & H1 & H2)|H].
      * by exists (String c s1), s2.
      * destruct (nullable r1) eqn:Hn; [|by rewrite matches_Void in H].
        by exists "", (String c s).
    + intros (s1 & s2 & Hs & H1 & H2). destruct s1 as [|c1 s1].
      * right. rewrite append_empty in Hs. cbn in H1. rewrite H1. by subst s2.
      * left. rewrite append_cons in Hs. injection Hs as <- ->. by exists s1, s2.
Qed.

Lemma matches_Eps s : matches Eps s = true <-> s = "".
Proof. destruct s; cbn; [done|]. by rewrite matches_Void. Qed.

Lemma matches_Class p s :
  matches (Class p) s = true <-> exists c, s = String c "" /\ p c = true.
Proof.
  destruct s as [|c s]; cbn.
  - split; [done|]. by intros (c & ? & _).
  - destruct (p c) eqn:Hp.
    + rewrite matches_Eps. split; [intros ->; eauto|].
      by intros (c' & [= -> ->] & _).
    + rewrite matches_Void. split; [done|].
      intros (c' & [= -> ->] & Hc). congruence.
Qed.

Lemma matches_Star_Class p s : matches (Star (Class p)) s = Str.all p s.
Proof.
  induction s as [|c s IH]; [done|]. cbn [matches deriv Str.all].
  destruct (p c) eqn:Hp; cbn [andb].
  - rewrite <- IH. apply eq_true_iff_eq. rewrite matches_Cat. split.
    + intros (s1 & s2 & -> & ->%matches_Eps & H). done.
    + intros H. by exists "", s.
  - apply not_true_iff_false. rewrite matches_Cat.
    intros (s1 & s2 & _ & H & _). by rewrite matches_Void in H.
Qed.

Lemma matches_Plus_Class p s :
  matches (Plus (Class p)) s = true <-> s <> "" /\ Str.all p s = true.
Proof.
  unfold Plus. rewrite matches_Cat. split.
  - intros (s1 & s2 & -> & (c & -> & Hc)%matches_Class & H).
    rewrite matches_Star_Class in H. rewrite append_cons, append_empty.
    cbn [Str.all]. split; [done | by rewrite Hc].
  - intros [Hne H]. destruct s as [|c s]; [done|]. cbn in H.
    apply andb_prop in H as [Hc Hs]. exists (String c ""), s.
    rewrite matches_Star_Class. repeat split; [|done].
    apply matches_Class. eauto.
Qed.

Lemma matches_Chr c s : matches (Chr c) s = true <-> s = String c "".
Proof.
  unfold Chr. rewrite matches_Class. split.
  - by intros (c' & -> & ->%Ascii.eqb_eq).
  - intros ->. exists c. by rewrite Ascii.eqb_refl.
Qed.

End RegexShapes.

Lemma emailPattern_shape e :
  Regex.matches emailPattern e = true <-> Spec.addressShaped e.
Proof.
  unfold emailPattern, Spec.addressShaped. rewrite matches_Cat. split.
  - intros (l & s1 & -> & [Hl Hl']%matches_Plus_Class & H).
    apply matches_Cat in H as (a & s2 & -> & ->%matches_Chr & H).
    apply matches_Cat in H as (d & s3 & -> & [Hd Hd']%matches_Plus_Class & H).
    apply matches_Cat in H as (p & t & -> & ->%matches_Chr & [Ht Ht']%matches_Plus_Class).
    by exists l, d, t.
  - intros (l & d & t & -> & Hl & Hd & Ht & Hl' & Hd' & Ht').
    exists l, ("@" ++ d ++ "." ++ t). split; [done|].
    split; [by apply matches_Plus_Class|].
    apply matches_Cat. exists "@", (d ++ "." ++ t). split; [done|].
    split; [by apply matches_Chr|].
    apply matches_Cat. exists d, ("." ++ t). split; [done|].
    split; [by apply matches_Plus_Class|].
    apply matches_Cat. exists ".", t. split; [done|].
    split; [by apply matches_Chr | by apply matches_Plus_Class].
Qed.

(** X16. The address pattern accepts exactly the strings made of a local
    part, [@], a domain, [.] and a last part, where the three parts are
    non-empty and hold neither white space nor [@]; the copy of the
    pattern in the partial update accepts the same strings. *)
Theorem address_pattern_accepts e :
  (Regex.matches emailPattern e = true <-> Spec.addressShaped e)
  /\ Regex.matches patchEmailPattern e = Regex.matches emailPattern e.
Proof. split; [apply emailPattern_shape | reflexivity]. Qed.

(** *** The normal form of stored names and emails *)

Lemma trimStart_headClean s : Spec.headClean (Str.trimStart s).
Proof.
  induction s as [|c s IH]; [done|]. cbn.
  by destruct (Str.isWhiteSpace c) eqn:E.
Qed.

Lemma headClean_trimStart s : Spec.headClean s -> Str.trimStart s = s.
Proof. destruct s as [|c s]; [done|]. cbn. by intros ->. Qed.

Lemma trimEnd_headClean s : Spec.headClean s -> Spec.headClean (Str.trimEnd s).
Proof.
  destruct s as [|c s]; [done|]. cbn. intros Hc.
  destruct (Str.trimEnd s); [by rewrite Hc|done].
Qed.

Lemma trimEnd_trimEnd s : Str.trimEnd (Str.trimEnd s) = Str.trimEnd s.
Proof.
  induction s as [|c s IH]; [done|]. cbn.
  destruct (Str.trimEnd s) as [|c' t] eqn:E.
  - destruct (Str.isWhiteSpace c) eqn:Hc; [done|]. cbn. by rewrite Hc.
  - cbn [Str.trimEnd]. cbn [Str.trimEnd] in IH. by rewrite IH.
Qed.

Lemma trim_trim s : Str.trim (Str.trim s) = Str.trim s.
Proof.
  unfold Str.trim.
  rewrite (headClean_trimStart (Str.trimEnd (Str.trimStart s)))
    by apply trimEnd_headClean, trimStart_headClean.
  apply trimEnd_trimEnd.
Qed.

Lemma lowerChar_lowerChar c : Str.lowerChar (Str.lowerChar c) = Str.lowerChar c.
Proof. destruct c as [[] [] [] [] [] [] [] []]; reflexivity. Qed.

Lemma lowerChar_notSpaceAt c : notSpaceAt (Str.lowerChar c) = notSpaceAt c.
Proof. destruct c as [[] [] [] [] [] [] [] []]; reflexivity. Qed.

Lemma toLowerCase_toLowerCase s :
  Str.toLowerCase (Str.toLowerCase s) = Str.toLowerCase s.
Proof. induction s as [|c s IH]; [done|]. cbn. by rewrite lowerChar_lowerChar, IH. Qed.

Lemma toLowerCase_append (s t : string) :
  Str.toLowerCase (s ++ t) = Str.toLowerCase s ++ Str.toLowerCase t.
Proof.
  induction s as [|c s IH]; [done|].
  rewrite append_cons. cbn [Str.toLowerCase]. by rewrite IH, append_cons.
Qed.

Lemma toLowerCase_all s :
  Str.all notSpaceAt (Str.toLowerCase s) = Str.all notSpaceAt s.
Proof. induction s as [|c s IH]; [done|]. cbn. by rewrite lowerChar_notSpaceAt, IH. Qed.

Lemma toLowerCase_nonempty s : s <> "" -> Str.toLowerCase s <> "".
Proof. by destruct s. Qed.

(** The normalized form of a valid email is in normal form. *)
Lemma normal_email e :
  Regex.matches emailPattern e = true ->
  Regex.matches emailPattern (Str.trim (Str.toLowerCase e)) = true
  /\ Str.toLowerCase (Str.trim (Str.toLowerCase e)) = Str.trim (Str.toLowerCase e).
Proof.
  intros He.
  assert (Regex.matches emailPattern (Str.toLowerCase e) = true) as Hl.
  { apply emailPattern_shape in He
      as (l & d & t & -> & Hl & Hd & Ht & Hl' & Hd' & Ht').
    apply emailPattern_shape.
    exists (Str.toLowerCase l), (Str.toLowerCase d), (Str.toLowerCase t).
    rewrite !toLowerCase_append, !toLowerCase_all.
    auto 10 using toLowerCase_nonempty. }
  rewrite (matched_email_trimmed _ Hl). split; [done|].
  apply toLowerCase_toLowerCase.
Qed.

Lemma normal_name s :
  Str.trim s <> "" -> Str.trim s <> "" /\ Str.trim (Str.trim s) = Str.trim s.
Proof. intros H. split; [done | apply trim_trim]. Qed.

Lemma stringArg_Some v s : stringArg v = Some s -> v = Some (JStr s).
Proof. destruct v as [[]|]; try done. by intros [= ->]. Qed.

Lemma column_stringArg v w :
  column stringArg v = Some w ->
  match w with Some s => v = Some (JStr s) | None => v = None end.
Proof.
  unfold column. destruct v as [j|]; cbn [isUndefined]; [|by intros [= <-]].
  destruct (stringArg (Some j)) as [s|] eqn:E;
    cbn [fmap option_fmap option_map]; [|done].
  intros [= <-]. by apply stringArg_Some.
Qed.

Lemma normalForm_rows db db' :
  rows db' = rows db -> Spec.normalForm db -> Spec.normalForm db'.
Proof. intros E H i d. rewrite E. apply H. Qed.

Lemma create_normalForm data db :
  Spec.normalFields data -> Spec.normalForm db -> Spec.normalForm (create data db).1.
Proof.
  intros [Hn He] Hdb. unfold create.
  destruct (stringArg (f_name data)) as [n|] eqn:En; [|done].
  destruct (stringArg (f_email data)) as [e|] eqn:Ee; [|done].
  destruct (column intArg (f_age data)) as [a|]; [|done].
  destruct (emailTaken e None (rows db)); [done|].
  apply stringArg_Some in En, Ee.
  intros i d. cbn. intros [[<- <-]|[_ Hi]]%lookup_insert_Some; [|by apply (Hdb i)].
  split; cbn.
  - destruct Hn as [Hn|(s & Hn & ?)]; rewrite En in Hn; [done|].
    by injection Hn as ->.
  - destruct He as [He|(s & He & ?)]; rewrite Ee in He; [done|].
    by injection He as ->.
Qed.

Lemma update_normalForm id data db :
  Spec.normalFields data -> Spec.normalForm db -> Spec.normalForm (update id data db).1.
Proof.
  intros [Hn He] Hdb. unfold update.
  destruct (idArg id) as [i|]; [|done].
  destruct (column stringArg (f_name data)) as [n|] eqn:En; [|done].
  destruct (column stringArg (f_email data)) as [e|] eqn:Ee; [|done].
  destruct (column intArg (f_age data)) as [a|]; [|done].
  destruct (rows db !! i) as [old|] eqn:Hold; [|done].
  destruct (match e with Some _ => _ | None => _ end); [done|].
  apply column_stringArg in En, Ee. destruct (Hdb i old Hold) as [Hon Hoe].
  intros j d. cbn. intros [[<- <-]|[_ Hj]]%lookup_insert_Some; [|by apply (Hdb j)].
  split; cbn.
  - destruct n as [s|]; [|done].
    destruct Hn as [Hn|(s' & Hn & ?)]; rewrite En in Hn; [done|].
    by injection Hn as ->.
  - destruct e as [s|]; [|done].
    destruct He as [He|(s' & He & ?)]; rewrite Ee in He; [done|].
    by injection He as ->.
Qed.

Lemma delete_normalForm id db :
  Spec.normalForm db -> Spec.normalForm (Prisma.delete id db).1.
Proof.
  intros Hdb. unfold Prisma.delete.
  destruct (idArg id) as [i|]; [|done].
  destruct (rows db !! i); [|done].
  intros j d. cbn. intros [_ Hj]%lookup_delete_Some. by apply (Hdb j).
Qed.

Lemma normalized_fields b :
  Spec.validInput b = true -> Spec.normalFields (fieldsOf (Spec.normalized b)).
Proof.
  intros Hv. destruct (validInput_object _ Hv) as [o ->].
  rewrite fieldsOf_normalized. unfold Spec.validInput in Hv.
  apply andb_prop in Hv as [[Hn He]%andb_prop _].
  unfold Spec.normalName, Spec.normalEmail.
  destruct (get (JObj o) "name") as [[| | |n| |]|]; try discriminate.
  destruct (get (JObj o) "email") as [[| | |e| |]|]; try discriminate.
  cbn [Spec.validName Spec.validEmail str] in *. apply negb_true_iff in Hn.
  split; right; eexists; (split; [reflexivity|]).
  - apply normal_name. intros E. by rewrite E in Hn.
  - by apply normal_email.
Qed.

Lemma patchFields_normal bb updateData :
  patchFields bb = Accepted updateData -> Spec.normalFields updateData.
Proof.
  unfold patchFields. destruct (destructure bb) as [?|[n e a]]; [done|].
  destruct (negb (isUndefined n) && invalidName n) eqn:En; [done|].
  destruct (if isUndefined e then _ else _) as [?|[]] eqn:Ee; try done.
  destruct (_ && invalidAge a); [done|]. intros [= <-]. split; cbn.
  - destruct n as [n|]; [right|by left]. cbn in En. unfold invalidName in En.
    destruct n as [| | |s| |]; try discriminate.
    cbn [isString typeof str negb orb] in En. cbn [str].
    eexists. split; [reflexivity|].
    apply normal_name. intros E. by rewrite E in En.
  - destruct e as [e|]; [right|by left]. cbn [isUndefined] in Ee.
    destruct (negb (truthy (Some e))); [done|]. cbn [orElse] in Ee.
    unfold noMatch in Ee. destruct e as [| | |s| |]; try discriminate.
    cbn [isString typeof str] in Ee. change patchEmailPattern with emailPattern in Ee.
    destruct (Regex.matches emailPattern s) eqn:Es; [|done]. cbn [str].
    eexists. split; [reflexivity|]. by apply normal_email.
Qed.

Lemma dispatch_routes_keep (P : store -> Prop) stack :
  Forall (Spec.routeKeeps P) stack ->
  forall err q db, P db -> P (dispatch stack err q db).1.
Proof.
  induction 1 as [|l stack Hl _ IH]; intros err q db Hdb; [done|].
  cbn [dispatch].
  assert (forall o, enter l err q db = Some o -> P (Spec.storeOf o)) as Ho.
  { intros o. destruct l as [f|f|m p hs], err as [e|]; cbn; try done.
    - intros [= <-]. by apply Hl.
    - intros [= <-]. by apply Hl.
    - destruct (pathMatches _ _); [|done]. destruct (methodMatches _ _); [|done].
      intros [= <-]. by apply Hl. }
  destruct (enter l err q db) as [[r db'|q' db'|e q' db']|]; auto.
  - by apply (Ho _ eq_refl).
  - apply IH. by apply (Ho _ eq_refl).
  - apply IH. by apply (Ho _ eq_refl).
Qed.

Lemma validated_then_written (h : middleware) q db :
  Spec.normalForm db ->
  (forall q' b, body q' = Some (Spec.normalized b) -> Spec.validInput b = true ->
                Spec.normalForm (Spec.storeOf (h q' db))) ->
  Spec.normalForm (Spec.storeOf (runRoute [validateUserInput; h] q db)).
Proof.
  intros Hdb Hh. rewrite runRoute_cons.
  destruct (body q) as [b|] eqn:Hq.
  - destruct (validateUserInput_outcome q db b Hq) as [[Hv ->]|[[msg ->]|[e ->]]];
      [|done..].
    rewrite runRoute_one. by apply (Hh _ b).
  - unfold validateUserInput. by rewrite Hq.
Qed.

Lemma handle_normalForm db r :
  Spec.normalForm db -> Spec.normalForm (handle db r).1.
Proof.
  apply dispatch_routes_keep. unfold app.
  repeat (apply Forall_cons; split); try apply Forall_nil; try exact I;
    cbn [Spec.routeKeeps]; intros *; intros Hdb.
  - unfold cors. by destruct (r_method _).
  - done.
  - unfold jsonErrorHandler. by destruct (_ && _).
  - unfold express_json. by destruct (r_raw _).
  - done.
  - rewrite runRoute_cons. destruct (validateId_outcome q db0) as [->|[n ->]]; [done|].
    rewrite runRoute_one. unfold getUser, findUniqueOrThrow.
    repeat case_match; simplify_eq; done.
  - apply validated_then_written; [done|]. intros q' b Hq' Hv.
    unfold createUser. rewrite Hq'. cbn [destructure].
    pose proof (create_normalForm _ db0 (normalized_fields b Hv) Hdb) as Hc.
    destruct (create _ db0) as [db' [e|u]]; [destruct (hasCode _ _)|]; done.
  - rewrite runRoute_cons. destruct (validateId_outcome q db0) as [->|[n ->]]; [done|].
    apply validated_then_written; [done|]. intros q' b Hq' Hv.
    unfold replaceUser. rewrite Hq'. cbn [destructure].
    pose proof (update_normalForm (paramValue (params_id q')) _ db0
                  (normalized_fields b Hv) Hdb) as Hc.
    destruct (update _ _ db0) as [db' [e|u]];
      [destruct (hasCode _ _); [|destruct (hasCode _ _)]|]; done.
  - rewrite runRoute_cons. destruct (validateId_outcome q db0) as [->|[n ->]]; [done|].
    rewrite runRoute_one. unfold patchUser.
    destruct (patchFields _) as [?|?|f] eqn:Ep; [done..|].
    destruct (_ =? _)%nat; [done|].
    pose proof (update_normalForm (paramValue (params_id (set_params_id q (Parsed n))))
                  f db0 (patchFields_normal _ _ Ep) Hdb) as Hc.
    destruct (update _ f db0) as [db' [e|u]];
      [destruct (hasCode _ _); [|destruct (hasCode _ _)]|]; done.
  - rewrite runRoute_cons. destruct (validateId_outcome q db0) as [->|[n ->]]; [done|].
    rewrite runRoute_one. unfold deleteUser.
    pose proof (delete_normalForm (paramValue (params_id (set_params_id q (Parsed n))))
                  db0 Hdb) as Hc.
    destruct (Prisma.delete _ db0) as [db' [e|u]]; [destruct (hasCode _ _)|]; done.
  - done.
  - done.
Qed.

(** X17. Whatever requests are served, every stored name stays non-empty
    with no white space around it, and every stored email stays a match of
    the address pattern in lower case: no route writes a name or an email
    that bypasses the normalization. *)
Theorem served_store_stays_normal db requests :
  Spec.normalForm db -> Spec.normalForm (Spec.serve db requests).
Proof.
  unfold Spec.serve. revert db.
  induction requests as [|r rs IH]; intros db Hdb; [done|].
  cbn [fold_left]. by apply IH, handle_normalForm.
Qed.

Lemma served_store_stays_normal_witness :
  Spec.normalForm
    (Spec.serve (mkStore ∅ 1 [])
       [mkRequest POST Users (Object [("name", JStr " Ann "); ("email", JStr "A@B.COM")]);
        mkRequest PATCH (UsersId "1") (Object [("name", JStr "  Bea")])]).
Proof.
  apply (served_store_stays_normal (mkStore ∅ 1 [])).
  intros i d Hi. cbn [rows] in Hi. by rewrite lookup_empty in Hi.
Defined.

(** *** More on the id segment *)

Lemma radixDigit_nonneg R c d : Num.radixDigit R c = Some d -> 0 <= d.
Proof.
  unfold Num.radixDigit, Num.digitValue.
  repeat (match goal with
          | |- context [Z.leb ?a ?b] => destruct (Z.leb_spec a b)
          | |- context [Z.ltb ?a ?b] => destruct (Z.ltb_spec a b)
          end; cbn [andb]); intros [= <-] || done; lia.
Qed.

Lemma mathInt_nonneg R s : forall acc, 0 <= R -> 0 <= acc -> 0 <= Num.mathInt R acc s.
Proof.
  induction s as [|c s IH]; intros acc HR Hacc; [done|]. cbn.
  destruct (Num.radixDigit R c) as [d|] eqn:E; [|done].
  apply IH; [done|]. apply radixDigit_nonneg in E. nia.
Qed.

(** X18. A segment that begins with a minus sign, after any leading white
    space, is always rejected with 400 "Invalid ID parameter", whatever
    follows the sign. *)
Theorem minus_sign_is_rejected db m seg raw b :
  Spec.parsed raw = Some b ->
  Spec.takesId m = true ->
  Str.startsWith "-" (Str.trimStart seg) = true ->
  handle db (mkRequest m (UsersId seg) raw) = (db, Spec.invalidId).
Proof.
  intros Hb Hm Hs. apply (invalid_id_rejected _ _ _ _ b); [done..|].
  intros n. unfold Num.parseIntMath. rewrite Hs, orb_true_r.
  destruct (_ || _);
    (destruct (Num.startsWithDigit _ _); [|done]; intros [= <-]).
  all: match goal with
       | |- -1 * Num.mathInt ?R 0 ?s < 1 =>
           pose proof (mathInt_nonneg R s 0 ltac:(lia) ltac:(lia)); lia
       end.
Qed.

Lemma minus_sign_is_rejected_witness :
  handle (mkStore ∅ 1 []) (mkRequest DELETE (UsersId " -12") NoJson)
  = (mkStore ∅ 1 [], Spec.invalidId).
Proof.
  apply (minus_sign_is_rejected (mkStore ∅ 1 []) DELETE " -12" NoJson (JObj []));
    reflexivity.
Defined.

Lemma trimStart_white ws (s : string) :
  Str.all Str.isWhiteSpace ws = true -> Str.trimStart (ws ++ s) = Str.trimStart s.
Proof.
  induction ws as [|c ws IH]; [done|]. cbn [Str.all].
  intros [Hc Hws]%andb_prop. rewrite append_cons. cbn [Str.trimStart].
  rewrite Hc. by apply IH.
Qed.

(** X19. White space before the id is skipped: a request on a segment
    with leading white space is served exactly as the request on the
    segment without it. *)
Theorem leading_white_space_is_skipped db m ws seg raw :
  Str.all Str.isWhiteSpace ws = true ->
  handle db (mkRequest m (UsersId (ws ++ seg)) raw)
  = handle db (mkRequest m (UsersId seg) raw).
Proof.
  intros Hws. apply handle_by_parsed_id.
  unfold Num.parseInt, Num.parseIntMath. by rewrite (trimStart_white _ _ Hws).
Qed.

Lemma leading_white_space_is_skipped_witness :
  handle (mkStore {[ 7 := mkData "Ann" "a@b.com" None ]} 8 [])
    (mkRequest GET (UsersId ("  " ++ "7")) NoJson)
  = handle (mkStore {[ 7 := mkData "Ann" "a@b.com" None ]} 8 [])
      (mkRequest GET (UsersId "7") NoJson).
Proof.
  apply (leading_white_space_is_skipped
           (mkStore {[ 7 := mkData "Ann" "a@b.com" None ]} 8 []) GET "  " "7" NoJson).
  reflexivity.
Defined.

(** *** The handler of parse errors *)

Lemma dispatch_cons l rest err q db :
  dispatch (l :: rest) err q db
  = match enter l err q db with
    | None => dispatch rest err q db
    | Some (Respond r db') => (db', r)
    | Some (Next q' db') => dispatch rest None q' db'
    | Some (NextError e q' db') => dispatch rest (Some e) q' db'
    end.
Proof. reflexivity. Qed.

(** X20. No request is ever answered 400 "Invalid JSON": the handler that
    would send it stands before every layer that can raise an error, and
    the router only moves forward. *)
Theorem invalid_json_is_never_answered db r :
  (handle db r).2 <> json 400 (errorBody "Invalid JSON").
Proof.
  unfold handle, app. destruct r as [m t raw].
  rewrite dispatch_cons.
  destruct m; cbn [enter cors r_method incoming snd]; [| | | | | |discriminate];
    (rewrite dispatch_cons; cbn [enter requestLogger];
     rewrite dispatch_cons; cbn [enter];
     match goal with
     | |- (dispatch (?l1 :: ?l2 :: ?l3 :: ?l4 :: ?l5 :: ?l6 :: ?l7 :: ?rest) _ _ _).2 <> _ =>
         change (l1 :: l2 :: l3 :: l4 :: l5 :: l6 :: l7 :: rest)
           with ([l1; l2; l3; l4; l5; l6; l7] ++ rest)%list
     end;
     apply dispatch_answers;
     [ repeat (apply Forall_cons; split); try apply Forall_nil;
       cbn [Spec.answers];
       repeat (apply Forall_cons; split); try apply Forall_nil;
       try exact I; intros *;
       unfold express_json, listUsers, findMany, validateId, getUser,
         validateUserInput, createUser, replaceUser, patchUser, patchFields,
         deleteUser;
       repeat case_match; simplify_eq; try done; intros [= <- <-]; discriminate
     | intros [e|] q' db'; cbn; discriminate ]).
Qed.

(** *** Partial updates that are not valid *)

Lemma patchFields_rejects b r :
  patchFields b = Rejected r -> status r = 400.
Proof.
  unfold patchFields. intros H.
  repeat case_match; simplify_eq; done.
Qed.

Lemma invalidName_validName n :
  invalidName (Some n) = negb (Spec.validName (Some n)).
Proof.
  destruct n as [| | |s| |]; try done.
  unfold invalidName. cbn [isString typeof str Spec.validName negb orb].
  by rewrite empty_length, negb_involutive.
Qed.

Lemma invalidAge_validAge v :
  negb (isUndefined v) && invalidAge v = negb (Spec.validAge v).
Proof.
  destruct (Spec.validAge v) eqn:E.
  - by rewrite validAge_passes.
  - by rewrite validAge_fails.
Qed.

Lemma patch_email_check e :
  match orElse (negb (truthy (Some e))) (noMatch "email" (Some e) patchEmailPattern) with
  | inl _ => Spec.validEmail (Some e) = false
  | inr c => c = negb (Spec.validEmail (Some e))
  end.
Proof.
  destruct e as [|[]|x|s| |]; try done.
  - cbn [truthy]. by destruct (Num.nonzero x).
  - cbn [truthy noMatch isString typeof str Spec.validEmail].
    change patchEmailPattern with emailPattern.
    destruct (String.eqb s "") eqn:Es; [|done].
    apply String.eqb_eq in Es as ->. done.
Qed.

Lemma patchFields_accepted b d :
  patchFields (Some b) = Accepted d ->
  (keyCount d =? 0)%nat = false ->
  Spec.validPatch b = true.
Proof.
  unfold patchFields, destructure, fieldsOf, Spec.validPatch, Spec.supplied.
  rewrite invalidAge_validAge.
  destruct (get b "name") as [n|]; cbn [isUndefined negb andb orb].
  - rewrite invalidName_validName.
    destruct (Spec.validName (Some n)); [|done]. cbn [negb andb].
    destruct (get b "email") as [e|]; cbn [isUndefined negb andb orb].
    + pose proof (patch_email_check e) as He.
      destruct (orElse _ _) as [|[]]; [done|done|].
      symmetry in He. apply negb_false_iff in He. rewrite He.
      by destruct (Spec.validAge _).
    + by destruct (Spec.validAge _).
  - destruct (get b "email") as [e|]; cbn [isUndefined negb andb orb].
    + pose proof (patch_email_check e) as He.
      destruct (orElse _ _) as [|[]]; [done|done|].
      symmetry in He. apply negb_false_iff in He. rewrite He.
      by destruct (Spec.validAge _).
    + destruct (Spec.validAge _); [|done]. cbn [negb andb].
      intros [= <-]. unfold keyCount. cbn.
      by destruct (get b "age").
Qed.

(** X21. A partial update that is not valid never reaches the store: on
    PATCH /users/:id with an accepted id, a body in which a supplied field
    fails its check, or which supplies no field, leaves the store with its
    log of queries as it was, and the answer is a 400 or a 500. *)
Theorem invalid_patch_never_reaches_store db seg i raw b :
  Spec.parsed raw = Some b ->
  Spec.validId seg i ->
  Spec.validPatch b = false ->
  (handle db (mkRequest PATCH (UsersId seg) raw)).1 = db
  /\ (status (handle db (mkRequest PATCH (UsersId seg) raw)).2 = 400
      \/ status (handle db (mkRequest PATCH (UsersId seg) raw)).2 = 500).
Proof.
  intros Hb Hid Hv.
  rewrite (handle_patch _ _ _ Hb), runRoute_cons.
  rewrite (validateId_valid seg i) by done.
  rewrite runRoute_one. unfold patchUser.
  cbn [body set_body set_params_id params_id paramValue Spec.routed].
  destruct (patchFields (Some b)) as [r|e|d] eqn:E.
  - rewrite resume_respond. cbn [fst snd].
    rewrite (patchFields_rejects _ _ E). auto.
  - rewrite resume_error by lia. auto.
  - destruct (keyCount d =? 0)%nat eqn:Ek.
    + rewrite resume_respond. auto.
    + rewrite (patchFields_accepted _ _ E Ek) in Hv. discriminate.
Qed.

Lemma invalid_patch_never_reaches_store_witness :
  let db := mkStore {[ 1 := mkData "Ann" "ann@x.org" (Some 30) ]} 2 [] in
  let r := mkRequest PATCH (UsersId "1") (Object [("age", JNum (Num.ofZ (-1)))]) in
  (handle db r).1 = db
  /\ (status (handle db r).2 = 400 \/ status (handle db r).2 = 500).
Proof.
  intros db r.
  apply (invalid_patch_never_reaches_store db "1" 1
           (Object [("age", JNum (Num.ofZ (-1)))])
           (JObj [("age", JNum (Num.ofZ (-1)))]));
    [reflexivity | split; [reflexivity | lia] | reflexivity].
Defined.

(** *** An age beyond the range of the column *)

Lemma update_refused db i m b :
  Spec.validUpdate m b = true -> Spec.storable b = false ->
  update (Some (JNum (Num.ofZ i))) (Spec.written b) db = (db, inl validationError).
Proof.
  intros Hv Hf. pose proof (validUpdate_age _ _ Hv) as Ha.
  unfold update, Spec.written. rewrite idArg_ofZ.
  cbn [f_name f_email f_age]. rewrite (column_age_refused _ Ha Hf).
  by repeat case_match.
Qed.

(** X22. The validation sets no upper bound on [age]: a create or an
    update that is valid but whose age does not fit the integer column of
    the store passes the validation and is refused by the client of the
    store. The answer is 500 "Something went wrong!", not 400; no query is
    sent and the store is as before. *)
Theorem oversized_age_is_refused db raw b :
  Spec.parsed raw = Some b ->
  Spec.storable b = false ->
  (Spec.validInput b = true ->
   exists msg, handle db (mkRequest POST Users raw) = (db, Spec.wentWrong msg))
  /\ (forall m seg i,
        Spec.validId seg i -> Spec.validUpdate m b = true ->
        exists msg,
          handle db (mkRequest m (UsersId seg) raw) = (db, Spec.wentWrong msg)).
Proof.
  intros Hb Hf. split.
  - intros Hv. rewrite (handle_post _ _ _ Hb), runRoute_cons.
    rewrite (validateUserInput_valid _ _ b) by done.
    rewrite runRoute_one, (createUser_refused _ _ b) by done.
    rewrite resume_error by lia. by eexists.
  - intros m seg i Hid Hv. rewrite (handle_update db m seg i raw b Hb Hid Hv).
    rewrite (update_refused db i m b Hv Hf). by eexists.
Qed.

Lemma oversized_age_is_refused_witness :
  let db := mkStore ∅ 1 [] in
  exists msg,
    handle db (mkRequest POST Users
                 (Object [("name", JStr "Ann"); ("email", JStr "a@b.com");
                          ("age", JNum (Num.ofZ (10 ^ 21)))]))
    = (db, Spec.wentWrong msg).
Proof.
  intros db.
  destruct (oversized_age_is_refused db
              (Object [("name", JStr "Ann"); ("email", JStr "a@b.com");
                       ("age", JNum (Num.ofZ (10 ^ 21)))])
              (JObj [("name", JStr "Ann"); ("email", JStr "a@b.com");
                     ("age", JNum (Num.ofZ (10 ^ 21)))]))
    as [H _]; [reflexivity | vm_compute; reflexivity |].
  apply H. vm_compute. reflexivity.
Defined.
